(** * ArduinoPingMonitor: bit-packed loss history and probe cycle

    A shallow embedding of the two sketch revisions of the repository:

    - the earlier revision, which carries its own bit store
      ([setBool], [getBool], [getAvgBool] over [byte] arrays) and integer
      percentages;
    - [DhcpPingMonitor.ino], which keeps the same main loop but stores the
      samples in objects of the external BoolBits class and reports a
      floating point percentage.

    The target is an Arduino Uno: [int] is 16 bits wide, [long] and
    [unsigned long] are 32 bits wide and [byte] is 8 bits wide.  Machine
    integers are values of [Z] with the wrap-around written at every
    operation that can leave the range. *)

From Stdlib Require Import ZArith QArith Qround Lia.
From stdpp Require Import base tactics option list list_numbers strings.

Local Open Scope Z_scope.

(** ** Machine integers *)

Definition INT_MAX : Z := 32767.
Definition INT_MIN : Z := -32768.

(** Value of a 16-bit two's complement [int] after an arithmetic step. *)
Definition to_int (z : Z) : Z := (z + 32768) mod 65536 - 32768.

(** Value stored into a [byte] (unsigned, 8 bits). *)
Definition to_byte (z : Z) : Z := z mod 256.

(** Value of an [unsigned long] (32 bits). *)
Definition to_ulong (z : Z) : Z := z mod 2 ^ 32.

(** Value of a [long] (32 bits, two's complement). *)
Definition to_long (z : Z) : Z := (z + 2 ^ 31) mod 2 ^ 32 - 2 ^ 31.

(** ** Faults and the error monad

    The sketch has no error handling of its own; what can go wrong is an
    array access outside its bounds, an integer division by zero, and a
    wait loop that never ends. *)

Inductive fault : Type :=
  | OutOfBounds
  | DivideByZero
  | Diverges.

Inductive res (A : Type) : Type :=
  | Ok (a : A)
  | Fault (f : fault).

Arguments Ok {A} a.
Arguments Fault {A} f.

#[global] Instance res_ret : MRet res := fun A a => Ok a.

#[global] Instance res_bind : MBind res := fun A B k m =>
  match m with
  | Ok a => k a
  | Fault f => Fault f
  end.

(** ** Arrays

    A C array is a list; an index is an [int].  An access outside the
    array has no defined behaviour in C and is a fault here. *)

Definition arr_get {A : Type} (a : list A) (i : Z) : res A :=
  if bool_decide (0 <= i) then
    match a !! Z.to_nat i with
    | Some x => Ok x
    | None => Fault OutOfBounds
    end
  else Fault OutOfBounds.

Definition arr_set {A : Type} (a : list A) (i : Z) (x : A) : res (list A) :=
  if bool_decide (0 <= i < Z.of_nat (length a)) then Ok (<[Z.to_nat i := x]> a)
  else Fault OutOfBounds.

(** Integer division of two [int] values: truncation towards zero. *)
Definition int_div (a b : Z) : res Z :=
  if bool_decide (b = 0) then Fault DivideByZero else Ok (to_int (Z.quot a b)).

(** ** The bit store of the earlier revision *)

(** [static byte BIT_MASK[8]] *)
Definition BIT_MASK : list Z := [1; 2; 4; 8; 16; 32; 64; 128].

(** [inline void setBool(byte data[], int pos, boolean value)].  The
    operands of [|], [&] and [~] are promoted to [int]; the assignment
    truncates the result to a [byte]. *)
Definition setBool (data : list Z) (pos : Z) (value : bool) : res (list Z) :=
  let byte_pos := to_int (Z.quot pos 8) in
  let bit_pos := to_int (Z.rem pos 8) in
  if value then
    b ← arr_get data byte_pos;
    m ← arr_get BIT_MASK bit_pos;
    arr_set data byte_pos (to_byte (Z.lor b m))
  else
    b ← arr_get data byte_pos;
    m ← arr_get BIT_MASK bit_pos;
    arr_set data byte_pos (to_byte (Z.land b (Z.lnot m))).

(** [inline boolean getBool(byte data[], int pos)].  The masked byte is
    converted to [boolean]: the result is true exactly when it is not
    zero. *)
Definition getBool (data : list Z) (pos : Z) : res bool :=
  let byte_pos := to_int (Z.quot pos 8) in
  let bit_pos := to_int (Z.rem pos 8) in
  b ← arr_get data byte_pos;
  m ← arr_get BIT_MASK bit_pos;
  Ok (negb (Z.land b m =? 0)).

(** The [for] loop of [getAvgBool]: [x] runs from [startPos] while
    [x < endPos].  The fuel bounds the number of iterations; the caller
    passes [endPos - startPos], which is always enough. *)
Fixpoint getAvgBool_loop (data : list Z) (endPos : Z) (fuel : nat) (x sum : Z)
  : res Z :=
  if bool_decide (x < endPos) then
    match fuel with
    | O => Fault Diverges
    | S fuel' =>
        b ← getBool data x;
        getAvgBool_loop data endPos fuel' (to_int (x + 1))
          (if b : bool then to_int (sum + 1) else sum)
    end
  else Ok sum.

(** [inline int getAvgBool(byte data[], int startPos, int endPos)]:
    averages bits [startPos] (inclusive) through [endPos] (exclusive). *)
Definition getAvgBool (data : list Z) (startPos endPos : Z) : res Z :=
  sum ← getAvgBool_loop data endPos (Z.to_nat (endPos - startPos)) startPos 0;
  int_div (to_int (sum * 100)) (to_int (endPos - startPos)).

(** [#define PING_BYTE_MAX ( (int) ((PING_MAX_COUNT/8.0)+0.5) )].  The
    quotient by 8.0 and the sum with 0.5 are exact in binary floating
    point for every [int] count, so rationals give the same value; the
    cast truncates towards zero. *)
Definition Qtrunc (q : Q) : Z := if Qle_bool 0 q then Qfloor q else Qceiling q.

Definition PING_BYTE_MAX (PING_MAX_COUNT : Z) : Z :=
  to_int (Qtrunc (inject_Z PING_MAX_COUNT / (8 # 1) + (1 # 2))%Q).

(** ** The ping transport

    [ICMPEchoReply], its [Status] and the [ping] object belong to the
    ICMPPing library.  The sketch only compares [echoReply.status] with
    [SUCCESS], so the status type is a parameter with that one
    distinguished value. *)

Class ICMPPing : Type := {
  Status : Type;
  SUCCESS : Status;
  Status_eq_dec :: EqDecision Status
}.

(** What the transport answers during one call of [doPing].  When the
    library is built with [ICMPPING_ASYNCH_ENABLE], the sketch calls
    [ping.asyncStart] once (result and the status it leaves in
    [echoReply]) and then [ping.asyncComplete] repeatedly (result and
    status of each call, in order).  Otherwise it makes the single blocking
    call [ping(pingAddr, 1, echoReply)], which leaves a status. *)
Inductive PingScript `{ICMPPing} : Type :=
  | Asynchronous (started : bool) (status0 : Status)
      (polls : list (bool * Status))
  | Blocking (status : Status).

Section Transport.
Context `{ICMPPing}.

(** [while (! ping.asyncComplete(echoReply)) { ... }]: returns the status
    left by the first call that answers true. *)
Fixpoint asyncWait (polls : list (bool * Status)) : res Status :=
  match polls with
  | [] => Fault Diverges
  | (done, status) :: rest => if done : bool then Ok status else asyncWait rest
  end.

(** The final test of [doPing], shared by both revisions:
    [if (echoReply.status == SUCCESS) return true; else return false;] *)
Definition replyIsSuccess (status : Status) : bool :=
  bool_decide (status = SUCCESS).
End Transport.

(** ** The monitor state: the globals of the sketch *)

Inductive Target : Type :=
  | Gateway
  | FirstAddr
  | SecondAddr.

#[global] Instance Target_eq_dec : EqDecision Target.
Proof. solve_decision. Defined.

(** [B] is the type of a sample store ([byte] array or [BoolBits]), [A]
    the type of a loss percentage ([int] or [float]). *)
Record monitor (B A : Type) : Type := Monitor {
  gatewayPings : B;
  firstAddrPings : B;
  secondAddrPings : B;
  currentPingNum : Z;
  firstRun : bool;
  gatewayAvgLoss : A;
  firstAddrLoss : A;
  secondAddrLoss : A
}.

Arguments Monitor {B A}.
Arguments gatewayPings {B A}.
Arguments firstAddrPings {B A}.
Arguments secondAddrPings {B A}.
Arguments currentPingNum {B A}.
Arguments firstRun {B A}.
Arguments gatewayAvgLoss {B A}.
Arguments firstAddrLoss {B A}.
Arguments secondAddrLoss {B A}.

Section Globals.
Context {B A : Type}.

Definition pings (t : Target) (st : monitor B A) : B :=
  match t with
  | Gateway => gatewayPings st
  | FirstAddr => firstAddrPings st
  | SecondAddr => secondAddrPings st
  end.

Definition loss (t : Target) (st : monitor B A) : A :=
  match t with
  | Gateway => gatewayAvgLoss st
  | FirstAddr => firstAddrLoss st
  | SecondAddr => secondAddrLoss st
  end.

Definition set_pings (t : Target) (b : B) (st : monitor B A) : monitor B A :=
  match t with
  | Gateway =>
      Monitor b (firstAddrPings st) (secondAddrPings st) (currentPingNum st)
        (firstRun st) (gatewayAvgLoss st) (firstAddrLoss st) (secondAddrLoss st)
  | FirstAddr =>
      Monitor (gatewayPings st) b (secondAddrPings st) (currentPingNum st)
        (firstRun st) (gatewayAvgLoss st) (firstAddrLoss st) (secondAddrLoss st)
  | SecondAddr =>
      Monitor (gatewayPings st) (firstAddrPings st) b (currentPingNum st)
        (firstRun st) (gatewayAvgLoss st) (firstAddrLoss st) (secondAddrLoss st)
  end.

Definition set_loss (t : Target) (a : A) (st : monitor B A) : monitor B A :=
  match t with
  | Gateway =>
      Monitor (gatewayPings st) (firstAddrPings st) (secondAddrPings st)
        (currentPingNum st) (firstRun st) a (firstAddrLoss st) (secondAddrLoss st)
  | FirstAddr =>
      Monitor (gatewayPings st) (firstAddrPings st) (secondAddrPings st)
        (currentPingNum st) (firstRun st) (gatewayAvgLoss st) a (secondAddrLoss st)
  | SecondAddr =>
      Monitor (gatewayPings st) (firstAddrPings st) (secondAddrPings st)
        (currentPingNum st) (firstRun st) (gatewayAvgLoss st) (firstAddrLoss st) a
  end.

Definition set_cursor (n : Z) (first : bool) (st : monitor B A) : monitor B A :=
  Monitor (gatewayPings st) (firstAddrPings st) (secondAddrPings st)
    n first (gatewayAvgLoss st) (firstAddrLoss st) (secondAddrLoss st).
End Globals.

(** ** The main loop

    The two revisions run the same cycle: ping each of the three targets
    and store the negated result at [currentPingNum], advance the cursor,
    recompute the three averages.  They differ in the sample store, in the
    averaging entry point, in [doPing] and in the constants, which are the
    parameters of this section.  Display and serial output are left out. *)

Section Scheduler.
Context `{ICMPPing} {B A : Type}.
Variable PING_MAX_COUNT : Z.
Variable store_setBool : B -> Z -> bool -> res B.
Variable store_avg : B -> Z -> Z -> res A.
Variable doPing : PingScript -> res bool.

(** [inline void currentPingNumInc()] *)
Definition currentPingNumInc (st : monitor B A) : monitor B A :=
  let n := to_int (currentPingNum st + 1) in
  if bool_decide (n = PING_MAX_COUNT) then set_cursor 0 false st
  else set_cursor n (firstRun st) st.

(** [getAvgBool(byte data[])] of the earlier revision and
    [getFloatAvgBool(BoolBits& data)] of the later one: the average over
    the window chosen by [firstRun]. *)
Definition getAvgBool_window (data : B) (st : monitor B A) : res A :=
  if firstRun st then store_avg data 0 (currentPingNum st)
  else store_avg data 0 PING_MAX_COUNT.

(** One of the three statements
    [setBool( gatewayPings, currentPingNum, !doPing(Ethernet.gatewayIP()) );] *)
Definition pingAndStore (t : Target) (script : PingScript) (st : monitor B A)
  : res (monitor B A) :=
  reached ← doPing script;
  data ← store_setBool (pings t st) (currentPingNum st) (negb reached);
  Ok (set_pings t data st).

(** One of the three statements [gatewayAvgLoss=getAvgBool(gatewayPings);] *)
Definition computeLoss (t : Target) (st : monitor B A) : res (monitor B A) :=
  a ← getAvgBool_window (pings t st) st;
  Ok (set_loss t a st).

(** [void loop()], without its pacing tail. *)
Definition loop (scripts : Target -> PingScript) (st : monitor B A)
  : res (monitor B A) :=
  st ← pingAndStore Gateway (scripts Gateway) st;
  st ← pingAndStore FirstAddr (scripts FirstAddr) st;
  st ← pingAndStore SecondAddr (scripts SecondAddr) st;
  let st := currentPingNumInc st in
  st ← computeLoss Gateway st;
  st ← computeLoss FirstAddr st;
  computeLoss SecondAddr st.

(** Successive calls of [loop], one per element of [cycles]. *)
Fixpoint run (cycles : list (Target -> PingScript)) (st : monitor B A)
  : res (monitor B A) :=
  match cycles with
  | [] => Ok st
  | scripts :: rest => st' ← loop scripts st; run rest st'
  end.
End Scheduler.

(** ** Pacing of the cycle

    [loop] reads the clock when it starts ([stime=millis();]) and, after
    the measurement, polls it until the interval has passed.  The clock is
    the list of the true times (milliseconds since reset, unbounded) at
    which [loop] itself reads [millis()]: once at its start and then in
    the wait.  The readings that [doPing], [lcdClockSpin] and [alarm] take
    in between only drive the display and are left out.  The counter is an
    [unsigned long] and wraps. *)

Definition millis (now : Z) : Z := to_ulong now.

Section Pacing.
Variables ICMP_PING_TIMEOUT NUMBER_OF_IPS PROCESSING_LOOP_TIME : Z.

(** [#define PROCESSING_LOOP_INTERVAL
    ((ICMP_PING_TIMEOUT * NUMBER_OF_IPS) + PROCESSING_LOOP_TIME)],
    computed on [int]. *)
Definition PROCESSING_LOOP_INTERVAL : Z :=
  to_int (to_int (ICMP_PING_TIMEOUT * NUMBER_OF_IPS) + PROCESSING_LOOP_TIME).

(** The guard [millis()-stime < PROCESSING_LOOP_INTERVAL]: [stime] is a
    [long], the difference and the comparison are on [unsigned long]. *)
Definition stillWaiting (now stime : Z) : bool :=
  bool_decide (to_ulong (millis now - to_ulong stime)
               < to_ulong PROCESSING_LOOP_INTERVAL).

(** [while(millis()-stime < PROCESSING_LOOP_INTERVAL) { ... }]: returns
    the time of the reading that ends the wait and the readings left. *)
Fixpoint idleWait (stime : Z) (clock : list Z) : res (Z * list Z) :=
  match clock with
  | [] => Fault Diverges
  | now :: rest =>
      if stillWaiting now stime then idleWait stime rest else Ok (now, rest)
  end.

(** The clock skeleton of one call of [loop]: the start time, the time
    at which the wait ended, and the readings left for later calls. *)
Definition loop_pacing (clock : list Z) : res (Z * Z * list Z) :=
  match clock with
  | [] => Fault Diverges
  | start :: rest =>
      let stime := to_long (millis start) in
      '(finish, rest') ← idleWait stime rest;
      Ok (start, finish, rest')
  end.

(** Start times of [n] successive calls of [loop]. *)
Fixpoint cycle_starts (n : nat) (clock : list Z) : res (list Z) :=
  match n with
  | O => Ok []
  | S n' =>
      '(start, _, rest) ← loop_pacing clock;
      starts ← cycle_starts n' rest;
      Ok (start :: starts)
  end.
End Pacing.

(** ** The earlier revision *)

Module Earlier.
Definition PING_MAX_COUNT : Z := 100.
Definition ICMP_PING_TIMEOUT : Z := 800.
Definition NUMBER_OF_IPS : Z := 3.
Definition PROCESSING_LOOP_TIME : Z := 600.

(** [inline boolean doPing(IPAddress pingAddr)].  A failed
    [ping.asyncStart] is only reported on the serial line, the early
    return is commented out. *)
Definition doPing `{ICMPPing} (script : PingScript) : res bool :=
  match script with
  | Asynchronous _ _ polls =>
      status ← asyncWait polls;
      Ok (replyIsSuccess status)
  | Blocking status => Ok (replyIsSuccess status)
  end.

(** The globals after [setup]: the three arrays hold [PING_BYTE_MAX]
    zero bytes.  The capacity is a parameter; the sketch is configured
    with [PING_MAX_COUNT]. *)
Definition setup (capacity : Z) : monitor (list Z) Z :=
  let zeros := replicate (Z.to_nat (PING_BYTE_MAX capacity)) 0 in
  Monitor zeros zeros zeros 0 true 0 0 0.

Definition loop `{ICMPPing} (capacity : Z)
  : (Target -> PingScript) -> monitor (list Z) Z -> res (monitor (list Z) Z) :=
  loop capacity setBool getAvgBool doPing.

Definition run `{ICMPPing} (capacity : Z)
  : list (Target -> PingScript) -> monitor (list Z) Z -> res (monitor (list Z) Z) :=
  run capacity setBool getAvgBool doPing.

Definition PROCESSING_LOOP_INTERVAL : Z :=
  PROCESSING_LOOP_INTERVAL ICMP_PING_TIMEOUT NUMBER_OF_IPS PROCESSING_LOOP_TIME.

Definition loop_pacing : list Z -> res (Z * Z * list Z) :=
  loop_pacing ICMP_PING_TIMEOUT NUMBER_OF_IPS PROCESSING_LOOP_TIME.

Definition cycle_starts : nat -> list Z -> res (list Z) :=
  cycle_starts ICMP_PING_TIMEOUT NUMBER_OF_IPS PROCESSING_LOOP_TIME.
End Earlier.

(** ** The later revision, [DhcpPingMonitor.ino] *)

Module Evolved.
Definition PING_MAX_COUNT : Z := 300.
Definition ICMP_PING_TIMEOUT : Z := 950.
Definition NUMBER_OF_IPS : Z := 3.
Definition PROCESSING_LOOP_TIME : Z := 150.

(** [inline boolean doPing(IPAddress pingAddr, int x, int y)].  If the
    request cannot be sent the ping is lost: [return false]. *)
Definition doPing `{ICMPPing} (script : PingScript) : res bool :=
  match script with
  | Asynchronous started _ polls =>
      if negb started then Ok false
      else
        status ← asyncWait polls;
        Ok (replyIsSuccess status)
  | Blocking status => Ok (replyIsSuccess status)
  end.

(** The sample stores are [BoolBits] objects.  The class comes from a
    library outside the repository: its methods [setBool] and
    [getFloatAvgBool] are parameters. *)
Definition loop `{ICMPPing} {BoolBits float : Type}
    (bb_setBool : BoolBits -> Z -> bool -> res BoolBits)
    (bb_getFloatAvgBool : BoolBits -> Z -> Z -> res float)
  : (Target -> PingScript) -> monitor BoolBits float -> res (monitor BoolBits float) :=
  loop PING_MAX_COUNT bb_setBool bb_getFloatAvgBool doPing.

Definition PROCESSING_LOOP_INTERVAL : Z :=
  PROCESSING_LOOP_INTERVAL ICMP_PING_TIMEOUT NUMBER_OF_IPS PROCESSING_LOOP_TIME.

Definition loop_pacing : list Z -> res (Z * Z * list Z) :=
  loop_pacing ICMP_PING_TIMEOUT NUMBER_OF_IPS PROCESSING_LOOP_TIME.

Definition cycle_starts : nat -> list Z -> res (list Z) :=
  cycle_starts ICMP_PING_TIMEOUT NUMBER_OF_IPS PROCESSING_LOOP_TIME.
End Evolved.

(** ** Specification vocabulary *)

(** Bit [p] of a packed array, read off the list directly. *)
Definition bit_at (data : list Z) (p : Z) : bool :=
  match data !! Z.to_nat (p / 8) with
  | Some b => Z.testbit b (p mod 8)
  | None => false
  end.

(** Number of true values in a list of samples. *)
Fixpoint count_true (samples : list bool) : Z :=
  match samples with
  | [] => 0
  | b :: rest => (if b then 1 else 0) + count_true rest
  end.

(** The samples at positions [start, start + n) of a packed array. *)
Definition stored (data : list Z) (start n : Z) : list bool :=
  bit_at data <$> seqZ start n.

(** Writing the samples [vs] one after the other from position [pos] on,
    as the main loop does for one target while the cursor advances. *)
Fixpoint record_from (data : list Z) (pos : Z) (vs : list bool) : res (list Z) :=
  match vs with
  | [] => Ok data
  | v :: rest => data' ← setBool data pos v; record_from data' (pos + 1) rest
  end.

(** The logical window of a monitor: the number of leading positions that
    the average is taken over. *)
Definition window {B A : Type} (PING_MAX_COUNT : Z) (st : monitor B A) : Z :=
  if firstRun st then currentPingNum st else PING_MAX_COUNT.

(** The ring of the last samples: sample number [k] goes to position
    [k mod capacity]. *)
Fixpoint ring_fill (capacity : nat) (k : nat) (samples ring : list bool)
  : list bool :=
  match samples with
  | [] => ring
  | v :: rest => ring_fill capacity (S k) rest (<[(k mod capacity)%nat := v]> ring)
  end.

Definition ring_of (capacity : nat) (samples : list bool) : list bool :=
  ring_fill capacity 0 samples (replicate capacity false).

Section Outcome.
Context `{ICMPPing}.

(** The first [asyncComplete] call that answers true leaves [status]. *)
Inductive first_done : list (bool * Status) -> Status -> Prop :=
  | first_done_here status rest :
      first_done ((true, status) :: rest) status
  | first_done_later status' rest status :
      first_done rest status ->
      first_done ((false, status') :: rest) status.

(** The probe was dispatched and completed with [status]. *)
Inductive completes_with : PingScript -> Status -> Prop :=
  | completes_blocking status :
      completes_with (Blocking status) status
  | completes_async status0 polls status :
      first_done polls status ->
      completes_with (Asynchronous true status0 polls) status.

(** The request could not be dispatched. *)
Definition send_failed (script : PingScript) : Prop :=
  match script with
  | Asynchronous started _ _ => started = false
  | Blocking _ => False
  end.

(** The transport answers: some [asyncComplete] call returns true, so
    the wait loop of the probe ends. *)
Definition answers (script : PingScript) : bool :=
  match script with
  | Asynchronous _ _ polls => existsb fst polls
  | Blocking _ => true
  end.

Definition cycle_answers (scripts : Target -> PingScript) : bool :=
  answers (scripts Gateway) && answers (scripts FirstAddr)
  && answers (scripts SecondAddr).

(** The sample that a cycle hands to the store for a script: the negated
    result of [doPing]. *)
Definition sample_of (doPing : PingScript -> res bool) (script : PingScript)
  : bool :=
  match doPing script with
  | Ok reached => negb reached
  | Fault _ => true
  end.
End Outcome.

(** A concrete status type, to run the definitions on concrete
    transports: one value for success, the others for the ways a probe
    can fail. *)
Inductive EchoStatus : Type :=
  | EchoSuccess
  | EchoSendTimeout
  | EchoNoResponse
  | EchoBadResponse
  | EchoAsyncSent.

#[global] Instance EchoStatus_eq_dec : EqDecision EchoStatus.
Proof. solve_decision. Defined.

#[global] Instance EchoPing : ICMPPing :=
  {| Status := EchoStatus; SUCCESS := EchoSuccess |}.

(** A probe that is answered at once, and one that is lost. *)
Definition reached_script : PingScript :=
  Asynchronous true EchoAsyncSent [(true, EchoSuccess)].

Definition lost_script : PingScript :=
  Asynchronous true EchoAsyncSent [(false, EchoAsyncSent); (true, EchoNoResponse)].

(** A probe whose request could not be sent. *)
Definition unsent_script : PingScript := Asynchronous false EchoSendTimeout [].

(** A cycle in which the three targets get the given samples (true is a
    loss). *)
Definition cycle_of (g f s : bool) : Target -> PingScript := fun t =>
  let lost := match t with Gateway => g | FirstAddr => f | SecondAddr => s end in
  if lost : bool then lost_script else reached_script.

(** The samples that a sequence of cycles hands to the store of target
    [t], oldest first. *)
Definition samples_of `{ICMPPing} (doPing : PingScript -> res bool)
    (cycles : list (Target -> PingScript)) (t : Target) : list bool :=
  (fun scripts => sample_of doPing (scripts t)) <$> cycles.

(** The globals of the earlier revision hold the ring of the [k] samples
    recorded so far for each target. *)
Definition tracks (capacity : Z) (k : nat) (samples : Target -> list bool)
    (st : monitor (list Z) Z) : Prop :=
  currentPingNum st = Z.of_nat k mod capacity
  /\ firstRun st = bool_decide (Z.of_nat k < capacity)
  /\ forall t,
       length (samples t) = k
       /\ Z.of_nat (length (pings t st)) = PING_BYTE_MAX capacity
       /\ stored (pings t st) 0 capacity = ring_of (Z.to_nat capacity) (samples t).

(** A percentage [r] is the exact share of true values among [samples]. *)
Definition exact_percentage (r : Z) (samples : list bool) : Prop :=
  r * Z.of_nat (length samples) = 100 * count_true samples.

(** The clock never runs backwards. *)
Fixpoint nondecreasing (clock : list Z) : bool :=
  match clock with
  | a :: (b :: _) as rest => (a <=? b) && nondecreasing rest
  | _ => true
  end.

(** ** The keypad of the LCD shield *)

Definition BUTTON_NONE : Z := 0.
Definition BUTTON_SELECT : Z := 1.
Definition BUTTON_LEFT : Z := 2.
Definition BUTTON_DOWN : Z := 3.
Definition BUTTON_UP : Z := 4.
Definition BUTTON_RIGHT : Z := 5.

(** [inline byte getLcdButton()], as a function of the value that
    [analogRead(BUTTON_INPUT_PIN)] returns. *)
Definition getLcdButton (buttonValue : Z) : Z :=
  if bool_decide (buttonValue > 871) then BUTTON_NONE
  else if bool_decide (buttonValue > 600) then BUTTON_SELECT
  else if bool_decide (buttonValue > 392) then BUTTON_LEFT
  else if bool_decide (buttonValue > 218) then BUTTON_DOWN
  else if bool_decide (buttonValue > 66) then BUTTON_UP
  else BUTTON_RIGHT.

(** The readings that the header comment of the sketch lists for the
    buttons: idle 1023, select 720, left 480, down 305, up 131, right 0. *)
Definition nominal_reading (button : Z) : Z :=
  if bool_decide (button = BUTTON_NONE) then 1023
  else if bool_decide (button = BUTTON_SELECT) then 720
  else if bool_decide (button = BUTTON_LEFT) then 480
  else if bool_decide (button = BUTTON_DOWN) then 305
  else if bool_decide (button = BUTTON_UP) then 131
  else 0.

(** Every element of the array is a [byte]. *)
Definition is_bytes (data : list Z) : Prop :=
  Forall (fun b => 0 <= b < 256) data.

(** ** Display, serial line and backlight

    What the sketch sends to its peripherals, in order.  [LcdPrintNumber]
    and [SerialPrintNumber] stand for the calls of [print] and [println]
    with a number. *)

Inductive output : Type :=
  | LcdSetCursor (col row : Z)
  | LcdPrint (text : string)
  | LcdPrintNumber (n : Z)
  | LcdWrite (glyph : Z)
  | SerialPrint (text : string)
  | SerialPrintln (text : string)
  | SerialPrintNumber (n : Z)
  | SerialPrintlnNumber (n : Z)
  | Backlight (level : Z)
  | Delay (ms : Z).

Definition LCD_BACKLIGHT_BRIGHTNESS : Z := 64.
Definition LCD_CHAR_SMALL_CHECK : Z := 0.
Definition LCD_CHAR_SMALL_X : Z := 1.
Definition LCD_CHAR_HOURGLASS : Z := 2.
Definition LCD_CHAR_CLOCK1 : Z := 3.
Definition LCD_CHAR_CLOCK2 : Z := 4.
Definition LCD_CHAR_CLOCK3 : Z := 5.
Definition SPIN_RATE : Z := 250.

(** [inline void lcdClockSpin(int x, int y)].  It reads [millis()] once
    for the test and once more for the [switch]; the [switch] has no
    default case. *)
Definition lcdClockSpin (x y : Z) (clock : list Z) : res (list output * list Z) :=
  match clock with
  | [] => Fault Diverges
  | t1 :: rest1 =>
      if bool_decide (millis t1 mod SPIN_RATE = 0) then
        match rest1 with
        | [] => Fault Diverges
        | t2 :: rest2 =>
            let frame := (millis t2 / SPIN_RATE) mod 3 in
            let glyph :=
              if bool_decide (frame = 0) then [LcdWrite LCD_CHAR_CLOCK1]
              else if bool_decide (frame = 1) then [LcdWrite LCD_CHAR_CLOCK2]
              else if bool_decide (frame = 2) then [LcdWrite LCD_CHAR_CLOCK3]
              else [] in
            Ok (LcdSetCursor x y :: glyph, rest2)
        end
      else Ok ([], rest1)
  end.

(** The [while] loop of [alarm]: the guard reads [millis()], the body
    reads it once more and, on a multiple of 100, a third time. *)
Fixpoint alarm_loop (timeMs etime : Z) (clock : list Z)
  : res (list output * list Z) :=
  match clock with
  | [] => Fault Diverges
  | now :: rest =>
      if bool_decide (to_ulong (millis now - to_ulong etime) < to_ulong timeMs) then
        match rest with
        | [] => Fault Diverges
        | t1 :: rest1 =>
            if bool_decide (millis t1 mod 100 = 0) then
              match rest1 with
              | [] => Fault Diverges
              | t2 :: rest2 =>
                  let level :=
                    if bool_decide ((millis t2 / 500) mod 2 = 0) then 0 else 255 in
                  '(outs, later) ← alarm_loop timeMs etime rest2;
                  Ok (Backlight level :: outs, later)
              end
            else alarm_loop timeMs etime rest1
        end
      else Ok ([], rest)
  end.

(** [inline void alarm(int timeMs)] *)
Definition alarm (timeMs : Z) (clock : list Z) : res (list output * list Z) :=
  match clock with
  | [] => Fault Diverges
  | start :: rest =>
      let etime := to_long (millis start) in
      '(outs, later) ← alarm_loop timeMs etime rest;
      Ok ([Backlight 0; Delay 50; Backlight 255; Delay 50] ++ outs
          ++ [Backlight LCD_BACKLIGHT_BRIGHTNESS], later)
  end.

(** [inline void ethernetRenewMaintenance()] of [DhcpPingMonitor.ino], for
    the value that [Ethernet.maintain()] returns. *)
Definition ethernetRenewMaintenance (maintained : Z) (clock : list Z)
  : res (list output * list Z) :=
  let ethernetStatus := to_byte maintained in
  if bool_decide (ethernetStatus > 0) then
    let title :=
      [LcdSetCursor 0 0; LcdPrint "Ethernet Maint: "; LcdSetCursor 0 1] in
    if bool_decide (ethernetStatus = 1) then
      '(blink, later) ← alarm 10000 clock;
      Ok (title ++ [LcdPrint " <!> Renew Fail "] ++ blink
          ++ [SerialPrintln "Ethernet Renew Failure"], later)
    else if bool_decide (ethernetStatus = 2) then
      '(blink, later) ← alarm 1000 clock;
      Ok (title ++ [LcdPrint "    Renew OK    "] ++ blink
          ++ [SerialPrintln "Ethernet Renew Success"], later)
    else if bool_decide (ethernetStatus = 3) then
      '(blink, later) ← alarm 10000 clock;
      Ok (title ++ [LcdPrint " <!> Rebind Fail"] ++ blink
          ++ [SerialPrintln "Ethernet Rebind Failure"], later)
    else if bool_decide (ethernetStatus = 4) then
      '(blink, later) ← alarm 1000 clock;
      Ok (title ++ [LcdPrint "   Rebind OK    "] ++ blink
          ++ [SerialPrintln "Ethernet Rebind Success"], later)
    else
      '(blink, later) ← alarm 10000 clock;
      Ok (title
          ++ [LcdPrint "Unknown Code    "; LcdSetCursor 1 14;
              LcdPrintNumber ethernetStatus]
          ++ blink
          ++ [SerialPrint "Ethernet Maintenance: Unknown code ";
              SerialPrintlnNumber ethernetStatus], later)
  else Ok ([], clock).

(** The wait loop of [doPing] in [DhcpPingMonitor.ino], with the clock
    icon that it spins while [asyncComplete] answers false. *)
Fixpoint asyncWait_display `{ICMPPing} (x y : Z) (polls : list (bool * Status))
    (clock : list Z) : res (Status * list output * list Z) :=
  match polls with
  | [] => Fault Diverges
  | (done, status) :: rest =>
      if done : bool then Ok (status, [], clock)
      else
        '(spin, clock1) ← lcdClockSpin x y clock;
        '(final, spins, clock2) ← asyncWait_display x y rest clock1;
        Ok (final, spin ++ spins, clock2)
  end.

(** [inline boolean doPing(IPAddress pingAddr, int x, int y)] of
    [DhcpPingMonitor.ino] with what it draws on the display: the result,
    the trace and the clock readings that remain. *)
Definition doPing_display `{ICMPPing} (x y : Z) (script : PingScript)
    (clock : list Z) : res (bool * list output * list Z) :=
  let hourglass := [LcdSetCursor x y; LcdWrite LCD_CHAR_HOURGLASS] in
  let verdict (status : Status) :=
    if replyIsSuccess status
    then (true, [LcdSetCursor x y; LcdWrite LCD_CHAR_SMALL_CHECK])
    else (false, [LcdSetCursor x y; LcdWrite LCD_CHAR_SMALL_X]) in
  match script with
  | Asynchronous started _ polls =>
      if negb started then
        Ok (false, hourglass ++ [LcdSetCursor x y; LcdWrite LCD_CHAR_SMALL_X], clock)
      else
        '(status, spins, later) ← asyncWait_display x y polls clock;
        Ok (fst (verdict status), hourglass ++ spins ++ snd (verdict status), later)
  | Blocking status =>
      Ok (fst (verdict status), hourglass ++ snd (verdict status), clock)
  end.

(** An [IPAddress]: four octets, read as [ipAddr[octet]]. *)
Record IPAddress : Type := IP {
  octet0 : Z;
  octet1 : Z;
  octet2 : Z;
  octet3 : Z
}.

Definition ip_octet (ipAddr : IPAddress) (octet : Z) : Z :=
  if bool_decide (octet = 0) then octet0 ipAddr
  else if bool_decide (octet = 1) then octet1 ipAddr
  else if bool_decide (octet = 2) then octet2 ipAddr
  else octet3 ipAddr.

(** The [for] loop of [lcdPrintIpAddr]: [octet] is a [byte] that runs
    while [octet < 4]. *)
Fixpoint lcdPrintIpAddr_loop (ipAddr : IPAddress) (fuel : nat) (octet : Z)
  : list output :=
  if bool_decide (octet < 4) then
    match fuel with
    | O => []
    | S fuel' =>
        LcdPrintNumber (ip_octet ipAddr octet)
        :: (if bool_decide (octet < 3) then [LcdPrint "."] else [])
        ++ lcdPrintIpAddr_loop ipAddr fuel' (to_byte (octet + 1))
    end
  else [].

(** [inline void lcdPrintIpAddr(IPAddress ipAddr)] *)
Definition lcdPrintIpAddr (ipAddr : IPAddress) : list output :=
  lcdPrintIpAddr_loop ipAddr 4 0.

(** The statements of the earlier [loop] that show the three losses:
    the top row is blanked but for the percent sign, the legend goes to
    the bottom row, and the numbers go to columns 0, 4 and 8. *)
Definition showLosses (st : monitor (list Z) Z) : list output :=
  [LcdSetCursor 0 0; LcdPrint "            %   ";
   LcdSetCursor 0 1; LcdPrint "GW  IP1 IP2 LOSS";
   LcdSetCursor 0 0; LcdPrintNumber (gatewayAvgLoss st);
   LcdSetCursor 4 0; LcdPrintNumber (firstAddrLoss st);
   LcdSetCursor 8 0; LcdPrintNumber (secondAddrLoss st)].

(** Number of characters that [print] writes for an [int]: its decimal
    digits, and a sign if it is negative. *)
Definition decimal_digits (n : Z) : Z :=
  if bool_decide (n < 10) then 1
  else if bool_decide (n < 100) then 2
  else if bool_decide (n < 1000) then 3
  else if bool_decide (n < 10000) then 4
  else 5.

Definition decimal_width (n : Z) : Z :=
  if bool_decide (n < 0) then 1 + decimal_digits (- n) else decimal_digits n.

(** Number of display cells that a command fills. *)
Definition cells (o : output) : Z :=
  match o with
  | LcdPrint text => Z.of_nat (String.length text)
  | LcdPrintNumber n => decimal_width n
  | LcdWrite _ => 1
  | _ => 0
  end.

(** The trace that draws the glyphs, one after the other, each in the
    cell at column [x] of row [y]. *)
Definition draws (x y : Z) (glyphs : list Z) : list output :=
  glyphs ≫= (fun glyph => [LcdSetCursor x y; LcdWrite glyph]).

(** One of the three glyphs of the spinning clock. *)
Definition clock_glyph (glyph : Z) : Prop :=
  glyph = LCD_CHAR_CLOCK1 \/ glyph = LCD_CHAR_CLOCK2 \/ glyph = LCD_CHAR_CLOCK3.

(** The levels written to the backlight pin, in order. *)
Definition backlight_levels (outs : list output) : list Z :=
  outs ≫= (fun o => match o with Backlight level => [level] | _ => [] end).

(** The cursor positions that a trace sets, in order. *)
Definition cursor_positions (outs : list output) : list (Z * Z) :=
  outs ≫= (fun o => match o with LcdSetCursor col row => [(col, row)] | _ => [] end).

(** * Lemmas *)

(** ** Machine integers and bits *)

Lemma to_int_id z : INT_MIN <= z <= INT_MAX -> to_int z = z.
Proof. unfold to_int, INT_MIN, INT_MAX. intros Hz. rewrite Z.mod_small; lia. Qed.

Lemma succ_mod k c :
  0 <= k -> 0 < c ->
  (k + 1) mod c = if bool_decide (k mod c + 1 = c) then 0 else k mod c + 1.
Proof.
  intros Hk Hc. pose proof (Z.mod_pos_bound k c Hc) as Hm.
  pose proof (Z.div_mod k c) as Hd.
  case_bool_decide as Hw.
  - replace (k + 1) with ((k / c + 1) * c) by lia. apply Z.mod_mul. lia.
  - symmetry. apply (Z.mod_unique_pos _ _ (k / c)); lia.
Qed.

Lemma int_pos_split pos :
  0 <= pos <= INT_MAX ->
  to_int (Z.quot pos 8) = pos / 8 /\ to_int (Z.rem pos 8) = pos mod 8.
Proof.
  unfold INT_MAX. intros Hp.
  rewrite Z.quot_div_nonneg, Z.rem_mod_nonneg by lia.
  pose proof (Z.mod_pos_bound pos 8).
  pose proof (Z.div_mod pos 8).
  split; apply to_int_id; unfold INT_MIN, INT_MAX; lia.
Qed.

Lemma arr_get_Some {A} (a : list A) i x :
  0 <= i -> a !! Z.to_nat i = Some x -> arr_get a i = Ok x.
Proof.
  intros Hi Hx. unfold arr_get. rewrite bool_decide_eq_true_2 by done.
  by rewrite Hx.
Qed.

Lemma arr_get_BIT_MASK i : 0 <= i < 8 -> arr_get BIT_MASK i = Ok (2 ^ i).
Proof.
  intros Hi.
  assert (i = 0 \/ i = 1 \/ i = 2 \/ i = 3 \/ i = 4 \/ i = 5 \/ i = 6 \/ i = 7)
    as Hcases by lia.
  destruct Hcases as [->|[->|[->|[->|[->|[->|[->| ->]]]]]]]; reflexivity.
Qed.

Lemma land_pow2_test b i : 0 <= i -> negb (Z.land b (2 ^ i) =? 0) = Z.testbit b i.
Proof.
  intros Hi. destruct (Z.testbit b i) eqn:Hb.
  - apply negb_true_iff, Z.eqb_neq. intros Hz.
    assert (Z.testbit (Z.land b (2 ^ i)) i = true) as Ht.
    { rewrite Z.land_spec, Hb, Z.pow2_bits_true by done. done. }
    rewrite Hz, Z.bits_0 in Ht. done.
  - apply negb_false_iff, Z.eqb_eq, Z.bits_inj'. intros n Hn.
    rewrite Z.land_spec, Z.bits_0, Z.pow2_bits_eqb by done.
    destruct (Z.eqb_spec i n) as [->|]; [by rewrite Hb | by rewrite andb_false_r].
Qed.

Lemma getBool_bit_at data pos :
  0 <= pos < 8 * Z.of_nat (length data) -> pos <= INT_MAX ->
  getBool data pos = Ok (bit_at data pos).
Proof.
  intros Hp Hmax. unfold getBool, bit_at.
  destruct (int_pos_split pos) as [-> ->]; [lia|].
  pose proof (Z.mod_pos_bound pos 8).
  pose proof (Z.div_mod pos 8).
  destruct (lookup_lt_is_Some_2 data (Z.to_nat (pos / 8))) as [b Hb]; [lia|].
  rewrite Hb, (arr_get_Some data _ b) by (lia || done). simpl.
  rewrite arr_get_BIT_MASK by lia. simpl.
  by rewrite land_pow2_test by lia.
Qed.

Lemma set_bit_test b i j :
  0 <= i < 8 -> 0 <= j < 8 ->
  Z.testbit (to_byte (Z.lor b (2 ^ i))) j
  = (if bool_decide (j = i) then true else Z.testbit b j).
Proof.
  intros Hi Hj. unfold to_byte. change 256 with (2 ^ 8).
  rewrite Z.mod_pow2_bits_low, Z.lor_spec, Z.pow2_bits_eqb by lia.
  case_bool_decide as Hd.
  - subst. by rewrite Z.eqb_refl, orb_true_r.
  - destruct (Z.eqb_spec i j); [lia|]. by rewrite orb_false_r.
Qed.

Lemma clear_bit_test b i j :
  0 <= i < 8 -> 0 <= j < 8 ->
  Z.testbit (to_byte (Z.land b (Z.lnot (2 ^ i)))) j
  = (if bool_decide (j = i) then false else Z.testbit b j).
Proof.
  intros Hi Hj. unfold to_byte. change 256 with (2 ^ 8).
  rewrite Z.mod_pow2_bits_low, Z.land_spec, Z.lnot_spec, Z.pow2_bits_eqb by lia.
  case_bool_decide as Hd.
  - subst. by rewrite Z.eqb_refl, andb_false_r.
  - destruct (Z.eqb_spec i j); [lia|]. by rewrite andb_true_r.
Qed.

Lemma setBool_bit_at data pos v :
  0 <= pos < 8 * Z.of_nat (length data) -> pos <= INT_MAX ->
  exists data',
    setBool data pos v = Ok data' /\
    length data' = length data /\
    forall q, 0 <= q ->
      bit_at data' q = if bool_decide (q = pos) then v else bit_at data q.
Proof.
  intros Hp Hmax.
  pose proof (Z.mod_pos_bound pos 8) as Hm.
  pose proof (Z.div_mod pos 8) as Hdm.
  destruct (lookup_lt_is_Some_2 data (Z.to_nat (pos / 8))) as [b Hb]; [lia|].
  set (b' := if v then to_byte (Z.lor b (2 ^ (pos mod 8)))
             else to_byte (Z.land b (Z.lnot (2 ^ (pos mod 8))))).
  exists (<[Z.to_nat (pos / 8) := b']> data).
  split; [|split].
  - unfold setBool. destruct (int_pos_split pos) as [-> ->]; [lia|].
    rewrite (arr_get_Some data _ b) by (lia || done).
    rewrite arr_get_BIT_MASK by lia.
    unfold arr_set. rewrite bool_decide_eq_true_2 by lia.
    subst b'. by destruct v.
  - apply length_insert.
  - intros q Hq. unfold bit_at.
    pose proof (Z.mod_pos_bound q 8).
    pose proof (Z.div_mod q 8).
    destruct (decide (Z.to_nat (q / 8) = Z.to_nat (pos / 8))) as [Heq|Hne].
    + rewrite Heq, list_lookup_insert_eq by lia. rewrite Hb.
      subst b'. destruct v; [rewrite set_bit_test by lia | rewrite clear_bit_test by lia];
        repeat case_bool_decide; try done; lia.
    + rewrite list_lookup_insert_ne by done.
      rewrite bool_decide_eq_false_2; [done|]. intros ->. done.
Qed.

Lemma count_true_bounds samples : 0 <= count_true samples <= Z.of_nat (length samples).
Proof. induction samples as [|[] rest IH]; simpl; lia. Qed.

Lemma stored_nil data start n : n <= 0 -> stored data start n = [].
Proof. intros Hn. unfold stored, seqZ. by replace (Z.to_nat n) with O by lia. Qed.

Lemma stored_cons data start n :
  0 < n -> stored data start n = bit_at data start :: stored data (start + 1) (n - 1).
Proof.
  intros Hn. unfold stored. rewrite seqZ_cons by done. simpl.
  by rewrite <- Z.add_1_r, <- Z.sub_1_r.
Qed.

Lemma stored_length data start n : 0 <= n -> Z.of_nat (length (stored data start n)) = n.
Proof. intros Hn. unfold stored. rewrite length_fmap, length_seqZ. lia. Qed.

Lemma stored_lookup data start n (i : nat) :
  Z.of_nat i < n -> stored data start n !! i = Some (bit_at data (start + Z.of_nat i)).
Proof.
  intros Hi. unfold stored. rewrite list_lookup_fmap, lookup_seqZ_lt by lia. done.
Qed.

Lemma getAvgBool_loop_count data endPos fuel :
  forall x sum,
    0 <= x -> endPos <= 8 * Z.of_nat (length data) -> endPos <= INT_MAX ->
    endPos - x <= Z.of_nat fuel ->
    0 <= sum -> sum + (endPos - x) <= INT_MAX ->
    getAvgBool_loop data endPos fuel x sum
    = Ok (sum + count_true (stored data x (endPos - x))).
Proof.
  unfold INT_MAX.
  induction fuel as [|fuel IH]; intros x sum Hx Hlen Hmax Hfuel Hsum Hfit.
  - simpl. rewrite bool_decide_eq_false_2 by lia.
    rewrite stored_nil by lia. simpl. f_equal. lia.
  - simpl. case_bool_decide as Hlt.
    + rewrite getBool_bit_at by (unfold INT_MAX; lia). simpl.
      rewrite (to_int_id (x + 1)) by (unfold INT_MIN, INT_MAX; lia).
      rewrite (stored_cons data x) by lia.
      replace (endPos - x - 1) with (endPos - (x + 1)) by lia.
      destruct (bit_at data x); simpl.
      * rewrite to_int_id by (unfold INT_MIN, INT_MAX; lia).
        rewrite IH by lia. f_equal. lia.
      * rewrite IH by lia. done.
    + rewrite stored_nil by lia. simpl. f_equal. lia.
Qed.

(** The range average is the integer division of the wrapped hundredfold
    count by the width of the range. *)
Lemma getAvgBool_int_div data startPos endPos :
  0 <= startPos <= endPos -> endPos <= 8 * Z.of_nat (length data) ->
  endPos <= INT_MAX ->
  getAvgBool data startPos endPos
  = int_div (to_int (count_true (stored data startPos (endPos - startPos)) * 100))
      (endPos - startPos).
Proof.
  intros Hs Hlen Hmax. unfold getAvgBool.
  rewrite getAvgBool_loop_count by (unfold INT_MAX in *; lia). simpl.
  rewrite (to_int_id (endPos - startPos)) by (unfold INT_MIN, INT_MAX in *; lia).
  done.
Qed.

Lemma getAvgBool_percent data startPos endPos :
  0 <= startPos < endPos -> endPos <= 8 * Z.of_nat (length data) ->
  endPos <= INT_MAX -> (endPos - startPos) * 100 <= INT_MAX ->
  getAvgBool data startPos endPos
  = Ok (count_true (stored data startPos (endPos - startPos)) * 100
        / (endPos - startPos)).
Proof.
  intros Hs Hlen Hint Hmax.
  rewrite getAvgBool_int_div by (unfold INT_MAX in *; lia).
  pose proof (count_true_bounds (stored data startPos (endPos - startPos))) as Hc.
  rewrite stored_length in Hc by lia.
  unfold int_div. rewrite bool_decide_eq_false_2 by lia.
  rewrite (to_int_id (_ * 100)) by (unfold INT_MIN, INT_MAX in *; lia).
  rewrite Z.quot_div_nonneg by lia.
  rewrite to_int_id; [done|].
  assert (0 <= count_true (stored data startPos (endPos - startPos)) * 100
               / (endPos - startPos) <= 100).
  { split; [apply Z.div_pos; lia|].
    apply Z.div_le_upper_bound; lia. }
  unfold INT_MIN, INT_MAX. lia.
Qed.

(** ** Facts about the globals *)

Section GlobalsFacts.
Context {B A : Type}.
Implicit Types (st : monitor B A) (t : Target).

Lemma pings_set_pings t t' b st :
  pings t' (set_pings t b st) = if decide (t = t') then b else pings t' st.
Proof. by destruct t, t'. Qed.

Lemma loss_set_pings t t' b st : loss t' (set_pings t b st) = loss t' st.
Proof. by destruct t, t'. Qed.

Lemma pings_set_loss t t' a st : pings t' (set_loss t a st) = pings t' st.
Proof. by destruct t, t'. Qed.

Lemma loss_set_loss t t' a st :
  loss t' (set_loss t a st) = if decide (t = t') then a else loss t' st.
Proof. by destruct t, t'. Qed.

Lemma pings_set_cursor t n first st : pings t (set_cursor n first st) = pings t st.
Proof. by destruct t. Qed.

Lemma loss_set_cursor t n first st : loss t (set_cursor n first st) = loss t st.
Proof. by destruct t. Qed.
End GlobalsFacts.

(** ** Facts about the main loop, for any sample store *)

Section SchedulerFacts.
Context `{ICMPPing} {B A : Type}.
Variable PING_MAX_COUNT : Z.
Variable store_setBool : B -> Z -> bool -> res B.
Variable store_avg : B -> Z -> Z -> res A.
Variable doPing : PingScript -> res bool.
Implicit Types (st : monitor B A) (t : Target).

Local Abbreviation inc := (currentPingNumInc PING_MAX_COUNT).
Local Abbreviation the_pingAndStore := (pingAndStore store_setBool doPing).
Local Abbreviation the_computeLoss := (computeLoss PING_MAX_COUNT store_avg).
Local Abbreviation the_loop := (loop PING_MAX_COUNT store_setBool store_avg doPing).
Local Abbreviation the_run := (run PING_MAX_COUNT store_setBool store_avg doPing).

Lemma getAvgBool_window_eq data st :
  getAvgBool_window PING_MAX_COUNT store_avg data st
  = store_avg data 0 (window PING_MAX_COUNT st).
Proof. unfold getAvgBool_window, window. by destruct (firstRun st). Qed.

Lemma pingAndStore_Ok t script st st' :
  the_pingAndStore t script st = Ok st' <->
  exists reached data,
    doPing script = Ok reached
    /\ store_setBool (pings t st) (currentPingNum st) (negb reached) = Ok data
    /\ st' = set_pings t data st.
Proof.
  unfold pingAndStore. split.
  - destruct (doPing script) as [reached|]; simpl; [|done].
    destruct (store_setBool _ _ _) as [data|] eqn:Hd; simpl; [|done].
    intros [= <-]. by exists reached, data.
  - intros (reached & data & -> & Hd & ->). simpl. by rewrite Hd.
Qed.

Lemma computeLoss_Ok t st st' :
  the_computeLoss t st = Ok st' <->
  exists a,
    store_avg (pings t st) 0 (window PING_MAX_COUNT st) = Ok a
    /\ st' = set_loss t a st.
Proof.
  unfold computeLoss. rewrite getAvgBool_window_eq. split.
  - destruct (store_avg _ _ _) as [a|]; simpl; [|done].
    intros [= <-]. by exists a.
  - intros (a & -> & ->). done.
Qed.

Lemma bind_Ok {X Y} (m : res X) (k : X -> res Y) y :
  (x ← m; k x) = Ok y <-> exists x, m = Ok x /\ k x = Ok y.
Proof.
  destruct m as [x|f]; simpl; split.
  - intros Hk. by exists x.
  - by intros (x' & [= <-] & Hk).
  - done.
  - by intros (x' & ? & _).
Qed.

Lemma window_cursor st st0 :
  currentPingNum st = currentPingNum st0 -> firstRun st = firstRun st0 ->
  window PING_MAX_COUNT st = window PING_MAX_COUNT st0.
Proof. unfold window. by intros -> ->. Qed.

(** What one call of [loop] does to the globals. *)
Lemma loop_effect scripts st st' :
  the_loop scripts st = Ok st' ->
  (forall t, exists reached,
      doPing (scripts t) = Ok reached
      /\ store_setBool (pings t st) (currentPingNum st) (negb reached)
         = Ok (pings t st'))
  /\ currentPingNum st' = currentPingNum (inc st)
  /\ firstRun st' = firstRun (inc st)
  /\ (forall t, store_avg (pings t st') 0 (window PING_MAX_COUNT st')
                = Ok (loss t st')).
Proof.
  unfold loop.
  intros (s1 & H1 & H2)%bind_Ok.
  apply bind_Ok in H2 as (s2 & H2 & H3).
  apply bind_Ok in H3 as (s3 & H3 & H4).
  apply bind_Ok in H4 as (s5 & H4 & H5).
  apply bind_Ok in H5 as (s6 & H5 & H6).
  apply pingAndStore_Ok in H1 as (r1 & d1 & Hr1 & Hd1 & ->).
  apply pingAndStore_Ok in H2 as (r2 & d2 & Hr2 & Hd2 & ->).
  apply pingAndStore_Ok in H3 as (r3 & d3 & Hr3 & Hd3 & ->).
  apply computeLoss_Ok in H4 as (a1 & Ha1 & ->).
  apply computeLoss_Ok in H5 as (a2 & Ha2 & ->).
  apply computeLoss_Ok in H6 as (a3 & Ha3 & ->).
  destruct st as [g f s cur first lg lf ls]; simpl in *.
  unfold currentPingNumInc in *; simpl in *.
  split; [|split; [|split]].
  - intros []; simpl; case_bool_decide; simpl; eauto.
  - case_bool_decide; done.
  - case_bool_decide; done.
  - intros []; simpl; revert Ha1 Ha2 Ha3; case_bool_decide; simpl; done.
Qed.

(** When [loop] returns. *)
Lemma loop_returns scripts st :
  (forall t, exists reached data a,
      doPing (scripts t) = Ok reached
      /\ store_setBool (pings t st) (currentPingNum st) (negb reached) = Ok data
      /\ store_avg data 0 (window PING_MAX_COUNT (inc st)) = Ok a) ->
  exists st', the_loop scripts st = Ok st'.
Proof.
  intros Hall.
  destruct (Hall Gateway) as (r1 & d1 & a1 & Hr1 & Hd1 & Ha1).
  destruct (Hall FirstAddr) as (r2 & d2 & a2 & Hr2 & Hd2 & Ha2).
  destruct (Hall SecondAddr) as (r3 & d3 & a3 & Hr3 & Hd3 & Ha3).
  destruct st as [g f s cur first lg lf ls]; simpl in *.
  unfold loop, pingAndStore, computeLoss,
    getAvgBool_window, window, currentPingNumInc in *; simpl in *.
  rewrite Hr1; simpl. rewrite Hd1; simpl.
  rewrite Hr2; simpl. rewrite Hd2; simpl.
  rewrite Hr3; simpl. rewrite Hd3; simpl.
  revert Ha1 Ha2 Ha3. case_bool_decide; simpl; destruct first; simpl;
    intros Ha1 Ha2 Ha3; rewrite Ha1; simpl; rewrite Ha2; simpl; rewrite Ha3;
    simpl; eauto.
Qed.

(** The cursor and the flag after one more increment, once [k] samples
    have been recorded. *)
Lemma inc_closed_form (k : nat) st :
  0 < PING_MAX_COUNT <= INT_MAX ->
  currentPingNum st = Z.of_nat k mod PING_MAX_COUNT ->
  firstRun st = bool_decide (Z.of_nat k < PING_MAX_COUNT) ->
  currentPingNum (inc st) = Z.of_nat (S k) mod PING_MAX_COUNT
  /\ firstRun (inc st) = bool_decide (Z.of_nat (S k) < PING_MAX_COUNT).
Proof.
  intros Hcap Hk Hfirst.
  assert (0 <= currentPingNum st < PING_MAX_COUNT) as Hcur.
  { rewrite Hk. apply Z.mod_pos_bound. lia. }
  unfold currentPingNumInc.
  rewrite to_int_id by (unfold INT_MIN, INT_MAX in *; lia).
  replace (Z.of_nat (S k)) with (Z.of_nat k + 1) by lia.
  rewrite succ_mod by lia. rewrite <- Hk.
  destruct (decide (currentPingNum st + 1 = PING_MAX_COUNT)) as [Hwrap|Hwrap].
  - rewrite !(bool_decide_eq_true_2 (currentPingNum st + 1 = PING_MAX_COUNT)) by done.
    simpl. split; [done|]. symmetry. apply bool_decide_eq_false_2.
    intros Hlt. rewrite Hk, Z.mod_small in Hwrap by lia. lia.
  - rewrite !(bool_decide_eq_false_2 (currentPingNum st + 1 = PING_MAX_COUNT)) by done.
    simpl. split; [done|]. rewrite Hfirst. apply bool_decide_ext.
    split; [|lia]. intros Hlt.
    rewrite Hk, Z.mod_small in Hwrap by lia. lia.
Qed.

Lemma window_closed_form (k : nat) st :
  0 < PING_MAX_COUNT ->
  currentPingNum st = Z.of_nat k mod PING_MAX_COUNT ->
  firstRun st = bool_decide (Z.of_nat k < PING_MAX_COUNT) ->
  window PING_MAX_COUNT st = Z.min (Z.of_nat k) PING_MAX_COUNT.
Proof.
  intros Hcap Hk Hfirst. unfold window. rewrite Hfirst, Hk.
  case_bool_decide; [rewrite Z.mod_small|]; lia.
Qed.

Lemma run_app cycles1 cycles2 st :
  the_run (cycles1 ++ cycles2) st = (st' ← the_run cycles1 st; the_run cycles2 st').
Proof.
  revert st. induction cycles1 as [|c rest IH]; intros st; simpl; [done|].
  destruct (the_loop c st) as [st1|]; simpl; [apply IH | done].
Qed.

Lemma run_snoc cycles scripts st st' :
  the_run (cycles ++ [scripts]) st = Ok st' <->
  exists st1, the_run cycles st = Ok st1 /\ the_loop scripts st1 = Ok st'.
Proof.
  rewrite run_app, bind_Ok. simpl.
  split; intros (st1 & H1 & H2); exists st1; split; try done.
  - by apply bind_Ok in H2 as (? & -> & [= ->]).
  - rewrite H2. done.
Qed.
(** The cursor counts the calls of [loop] modulo the capacity, and
    [firstRun] holds until the capacity is reached. *)
Lemma run_cursor cycles : forall (k : nat) st st',
  0 < PING_MAX_COUNT <= INT_MAX ->
  currentPingNum st = Z.of_nat k mod PING_MAX_COUNT ->
  firstRun st = bool_decide (Z.of_nat k < PING_MAX_COUNT) ->
  the_run cycles st = Ok st' ->
  currentPingNum st' = Z.of_nat (k + length cycles) mod PING_MAX_COUNT
  /\ firstRun st' = bool_decide (Z.of_nat (k + length cycles) < PING_MAX_COUNT).
Proof.
  induction cycles as [|scripts rest IH]; intros k st st' Hcap Hk Hfirst Hrun.
  - simpl in Hrun. injection Hrun as <-. by rewrite Nat.add_0_r.
  - simpl in Hrun. apply bind_Ok in Hrun as (st1 & Hloop & Hrun).
    apply loop_effect in Hloop as (_ & Hc & Hf & _).
    destruct (inc_closed_form k st Hcap Hk Hfirst) as [Hk' Hfirst'].
    rewrite <- Hc in Hk'. rewrite <- Hf in Hfirst'.
    destruct (IH (S k) st1 st' Hcap Hk' Hfirst' Hrun) as [Hk'' Hfirst''].
    replace (k + length (scripts :: rest))%nat with (S k + length rest)%nat
      by (simpl; lia).
    done.
Qed.
End SchedulerFacts.

(** ** The ring of samples *)

Lemma ring_fill_length capacity samples : forall k ring,
  length (ring_fill capacity k samples ring) = length ring.
Proof.
  induction samples as [|v rest IH]; intros k ring; simpl; [done|].
  by rewrite IH, length_insert.
Qed.

Lemma ring_fill_snoc capacity samples v : forall k ring,
  ring_fill capacity k (samples ++ [v]) ring
  = <[((k + length samples) mod capacity)%nat := v]> (ring_fill capacity k samples ring).
Proof.
  induction samples as [|w rest IH]; intros k ring; simpl.
  - by rewrite Nat.add_0_r.
  - rewrite IH. by replace (k + S (length rest))%nat with (S k + length rest)%nat by lia.
Qed.

Lemma ring_of_snoc capacity samples v :
  ring_of capacity (samples ++ [v])
  = <[(length samples mod capacity)%nat := v]> (ring_of capacity samples).
Proof. unfold ring_of. by rewrite ring_fill_snoc. Qed.

(** While fewer samples than the capacity were recorded, the ring starts
    with them, in order. *)
Lemma ring_of_prefix capacity samples :
  (length samples <= capacity)%nat ->
  ring_of capacity samples = samples ++ replicate (capacity - length samples) false.
Proof.
  induction samples as [|v rest IH] using rev_ind; intros Hlen.
  - simpl. by rewrite Nat.sub_0_r.
  - rewrite length_app in Hlen. simpl in Hlen.
    rewrite ring_of_snoc, IH by lia.
    rewrite Nat.mod_small by lia.
    rewrite insert_app_r_alt by lia.
    rewrite Nat.sub_diag, length_app. simpl.
    replace (capacity - length rest)%nat with (S (capacity - (length rest + 1))) by lia.
    simpl. by rewrite <- app_assoc.
Qed.

Lemma ring_of_full capacity samples :
  length samples = capacity -> ring_of capacity samples = samples.
Proof.
  intros Hlen. rewrite ring_of_prefix by lia.
  rewrite Hlen, Nat.sub_diag. apply app_nil_r.
Qed.

(** ** The packed array as a list of samples *)

Lemma stored_take data n w :
  0 <= w <= n -> stored data 0 w = take (Z.to_nat w) (stored data 0 n).
Proof.
  intros Hw. apply list_eq. intros i.
  destruct (decide (Z.of_nat i < w)) as [Hi|Hi].
  - rewrite lookup_take_lt by lia. by rewrite !stored_lookup by lia.
  - rewrite lookup_take_ge by lia. apply lookup_ge_None.
    pose proof (stored_length data 0 w). lia.
Qed.

Lemma stored_setBool data data' pos v n :
  0 <= pos < n -> n <= 8 * Z.of_nat (length data) -> n <= INT_MAX ->
  setBool data pos v = Ok data' ->
  length data' = length data
  /\ stored data' 0 n = <[Z.to_nat pos := v]> (stored data 0 n).
Proof.
  intros Hp Hn Hmax Hset.
  destruct (setBool_bit_at data pos v) as (d & Hd & Hlen & Hbits); [lia..|].
  rewrite Hd in Hset. injection Hset as <-. split; [done|].
  apply list_eq. intros i.
  destruct (decide (Z.of_nat i < n)) as [Hi|Hi].
  - rewrite stored_lookup by done.
    destruct (decide (i = Z.to_nat pos)) as [->|Hne].
    + rewrite list_lookup_insert_eq by (pose proof (stored_length data 0 n); lia).
      rewrite Hbits by lia. rewrite bool_decide_eq_true_2 by lia. done.
    + rewrite list_lookup_insert_ne by done. rewrite stored_lookup by done.
      rewrite Hbits by lia. rewrite bool_decide_eq_false_2 by lia. done.
  - pose proof (stored_length data 0 n). pose proof (stored_length d 0 n).
    rewrite !(proj2 (lookup_ge_None _ _)); [done|rewrite length_insert|]; lia.
Qed.

Lemma bit_at_zeros n p : bit_at (replicate n 0) p = false.
Proof.
  unfold bit_at. destruct (replicate n 0 !! Z.to_nat (p / 8)) as [b|] eqn:Hb; [|done].
  apply lookup_replicate in Hb as [-> _]. apply Z.bits_0.
Qed.

Lemma stored_zeros n start len :
  stored (replicate n 0) start len = replicate (Z.to_nat len) false.
Proof.
  apply list_eq. intros i.
  destruct (decide (Z.of_nat i < len)) as [Hi|Hi].
  - rewrite stored_lookup by done. rewrite bit_at_zeros.
    symmetry. apply lookup_replicate. split; [done|lia].
  - rewrite !(proj2 (lookup_ge_None _ _)); [done|rewrite length_replicate; lia|].
    destruct (decide (0 <= len)).
    + pose proof (stored_length (replicate n 0) start len). lia.
    + rewrite stored_nil by lia. simpl. lia.
Qed.

(** [PING_BYTE_MAX] in closed form: the capacity divided by 8, rounded to
    the nearest integer (halves go up). *)
Lemma PING_BYTE_MAX_eq capacity :
  0 <= capacity <= INT_MAX -> PING_BYTE_MAX capacity = (capacity + 4) / 8.
Proof.
  unfold INT_MAX. intros Hc. unfold PING_BYTE_MAX, Qtrunc.
  assert (0 <= inject_Z capacity / (8 # 1) + (1 # 2))%Q as Hq.
  { unfold Qle. simpl. lia. }
  apply Qle_bool_iff in Hq. rewrite Hq.
  unfold Qfloor. simpl.
  change (Z.pos (1 * 8 * 2)) with (8 * 2). change (Z.pos (1 * 8)) with 8.
  replace (capacity * 1 * 2 + 1 * 8) with ((capacity + 4) * 2) by lia.
  rewrite Z.div_mul_cancel_r by lia.
  apply to_int_id. unfold INT_MIN, INT_MAX.
  pose proof (Z.div_mod (capacity + 4) 8). pose proof (Z.mod_pos_bound (capacity + 4) 8).
  lia.
Qed.

(** ** The earlier revision: the globals follow the ring of samples *)

Section Answers.
Context `{ICMPPing}.

Lemma asyncWait_answers polls :
  existsb fst polls = true -> exists status, asyncWait polls = Ok status.
Proof.
  induction polls as [|[[] status] rest IH]; simpl; [done|eauto..].
Qed.

Lemma asyncWait_first_done polls status :
  asyncWait polls = Ok status <-> first_done polls status.
Proof.
  split.
  - induction polls as [|[[] status'] rest IH]; simpl; [done|..].
    + intros [= ->]. constructor.
    + intros Hw. constructor. by apply IH.
  - induction 1; simpl; done.
Qed.

Lemma Earlier_doPing_answers script :
  answers script = true -> exists reached, Earlier.doPing script = Ok reached.
Proof.
  destruct script as [started status0 polls|status]; simpl; [|eauto].
  intros (status & ->)%asyncWait_answers. simpl. eauto.
Qed.

Lemma Evolved_doPing_answers script :
  answers script = true -> exists reached, Evolved.doPing script = Ok reached.
Proof.
  destruct script as [[] status0 polls|status]; simpl; [|eauto..].
  intros (status & ->)%asyncWait_answers. simpl. eauto.
Qed.
End Answers.

Section EarlierFacts.
Context `{ICMPPing}.
Variable capacity : Z.
Hypothesis Hpos : 0 < capacity.
Hypothesis Hint : capacity <= INT_MAX.
Hypothesis Hfit : capacity <= 8 * PING_BYTE_MAX capacity.

Lemma setup_tracks : tracks capacity 0 (fun _ => []) (Earlier.setup capacity).
Proof.
  unfold tracks, Earlier.setup. simpl. split; [by rewrite Z.mod_0_l by lia|].
  split; [by rewrite bool_decide_eq_true_2 by lia|].
  intros t. split; [done|]. split.
  - destruct t; simpl; rewrite length_replicate; lia.
  - replace (pings t _) with (replicate (Z.to_nat (PING_BYTE_MAX capacity)) 0)
      by (by destruct t).
    apply stored_zeros.
Qed.

Lemma tracks_cursor k samples st :
  tracks capacity k samples st -> 0 <= currentPingNum st < capacity.
Proof. intros (-> & _). by apply Z.mod_pos_bound. Qed.

(** The window after [k] recorded samples (at least one). *)
Lemma tracks_window k samples st :
  tracks capacity k samples st ->
  window capacity st
  = (if bool_decide (Z.of_nat k < capacity) then Z.of_nat k else capacity).
Proof.
  intros (Hcur & Hfirst & _). unfold window. rewrite Hfirst, Hcur.
  case_bool_decide; [|done]. apply Z.mod_small. lia.
Qed.

Lemma loop_tracks k samples scripts st :
  tracks capacity k samples st -> cycle_answers scripts = true ->
  exists st',
    Earlier.loop capacity scripts st = Ok st'
    /\ tracks capacity (S k)
         (fun t => samples t ++ [sample_of Earlier.doPing (scripts t)]) st'
    /\ (forall t, setBool (pings t st) (currentPingNum st)
                    (sample_of Earlier.doPing (scripts t)) = Ok (pings t st'))
    /\ (forall t, getAvgBool (pings t st') 0 (window capacity st') = Ok (loss t st')).
Proof.
  intros Htr Hans.
  pose proof (tracks_cursor _ _ _ Htr) as Hcur.
  destruct Htr as (Hk & Hfirst & Hall).
  assert (forall t, answers (scripts t) = true) as Hanswer.
  { unfold cycle_answers in Hans. apply andb_true_iff in Hans as [Hans H3].
    apply andb_true_iff in Hans as [H1 H2]. by intros []. }
  destruct (inc_closed_form capacity k st ltac:(lia) Hk Hfirst) as [Hk' Hfirst'].
  assert (0 < window capacity (currentPingNumInc capacity st) <= capacity) as Hwin.
  { unfold window. rewrite Hfirst', Hk'. case_bool_decide; [|lia].
    rewrite Z.mod_small; lia. }
  destruct (loop_returns capacity setBool getAvgBool Earlier.doPing scripts st)
    as [st' Hloop].
  { intros t. destruct (Hall t) as (_ & Hlen & _).
    destruct (Earlier_doPing_answers _ (Hanswer t)) as [reached Hr].
    destruct (setBool_bit_at (pings t st) (currentPingNum st) (negb reached))
      as (data & Hd & Hlen' & _); [lia..|].
    exists reached, data. rewrite getAvgBool_int_div by lia.
    unfold int_div. rewrite bool_decide_eq_false_2 by lia. eauto. }
  exists st'. split; [exact Hloop|].
  apply loop_effect in Hloop as (Hstore & Hc & Hf & Havg).
  assert (forall t, setBool (pings t st) (currentPingNum st)
                      (sample_of Earlier.doPing (scripts t)) = Ok (pings t st'))
    as Hset.
  { intros t. destruct (Hstore t) as (reached & Hr & Hd).
    unfold sample_of. by rewrite Hr. }
  split; [|by split].
  split; [congruence|]. split; [congruence|].
  intros t. destruct (Hall t) as (Hlen & Hbytes & Hring).
  destruct (stored_setBool (pings t st) (pings t st') (currentPingNum st)
              (sample_of Earlier.doPing (scripts t)) capacity)
    as [Hlen' Hst]; [lia | lia | done | apply Hset |].
  split; [rewrite length_app; simpl; lia|]. split; [lia|].
  rewrite Hst, Hring, ring_of_snoc, Hlen, Hk. do 2 f_equal.
  rewrite <- (Z2Nat.id capacity) at 1 by lia.
  rewrite <- Nat2Z.inj_mod. apply Nat2Z.id.
Qed.

Lemma run_tracks cycles : forall k samples st,
  tracks capacity k samples st -> forallb cycle_answers cycles = true ->
  exists st',
    Earlier.run capacity cycles st = Ok st'
    /\ tracks capacity (k + length cycles)
         (fun t => samples t ++ samples_of Earlier.doPing cycles t) st'.
Proof.
  induction cycles as [|scripts rest IH]; intros k samples st Htr Hans.
  - exists st. split; [done|]. rewrite Nat.add_0_r.
    destruct Htr as (Hk & Hf & Hall). split; [done|]. split; [done|].
    intros t. simpl. rewrite app_nil_r. apply Hall.
  - simpl in Hans. apply andb_true_iff in Hans as [Hans Hrest].
    destruct (loop_tracks _ _ _ _ Htr Hans) as (st1 & Hloop & Htr1 & _).
    destruct (IH _ _ _ Htr1 Hrest) as (st' & Hrun & Htr').
    exists st'. split.
    + unfold Earlier.run, Earlier.loop in *. simpl. rewrite Hloop. exact Hrun.
    + replace (k + length (scripts :: rest))%nat with (S k + length rest)%nat
        by (simpl; lia).
      destruct Htr' as (Hk & Hf & Hall). split; [done|]. split; [done|].
      intros t. specialize (Hall t). unfold samples_of in *. simpl.
      by rewrite <- app_assoc in Hall.
Qed.

(** From the state after [setup], any sequence of answered cycles runs to
    the end and leaves the ring of its samples. *)
Lemma run_setup_tracks cycles :
  forallb cycle_answers cycles = true ->
  exists st,
    Earlier.run capacity cycles (Earlier.setup capacity) = Ok st
    /\ tracks capacity (length cycles) (samples_of Earlier.doPing cycles) st.
Proof.
  intros Hans.
  destruct (run_tracks cycles 0 (fun _ => []) _ setup_tracks Hans) as (st & Hrun & Htr).
  exists st. split; [done|]. exact Htr.
Qed.
End EarlierFacts.

(** ** Averages of the recorded samples *)

Lemma run_last_average `{ICMPPing} {B A : Type} (PING_MAX_COUNT : Z)
    (store_setBool : B -> Z -> bool -> res B) (store_avg : B -> Z -> Z -> res A)
    (doPing : PingScript -> res bool) cycles (st0 st : monitor B A) :
  cycles <> [] ->
  run PING_MAX_COUNT store_setBool store_avg doPing cycles st0 = Ok st ->
  forall t, store_avg (pings t st) 0 (window PING_MAX_COUNT st) = Ok (loss t st).
Proof.
  intros Hne Hrun.
  destruct (exists_last Hne) as (front & last & ->).
  apply run_snoc in Hrun as (st1 & _ & Hloop).
  apply loop_effect in Hloop as (_ & _ & _ & Havg). exact Havg.
Qed.

Lemma record_from_stored vs : forall data pos,
  0 <= pos -> pos + Z.of_nat (length vs) <= 8 * Z.of_nat (length data) ->
  pos + Z.of_nat (length vs) <= INT_MAX ->
  exists data',
    record_from data pos vs = Ok data'
    /\ length data' = length data
    /\ stored data' pos (Z.of_nat (length vs)) = vs
    /\ forall q, 0 <= q < pos -> bit_at data' q = bit_at data q.
Proof.
  induction vs as [|v rest IH]; intros data pos Hpos Hlen Hint.
  - exists data. simpl. by rewrite stored_nil.
  - simpl in Hlen, Hint.
    destruct (setBool_bit_at data pos v) as (data1 & Hset & Hlen1 & Hbits); [lia..|].
    destruct (IH data1 (pos + 1)) as (data' & Hrec & Hlen' & Hst & Hkeep);
      [lia | rewrite Hlen1; lia | lia |].
    exists data'. simpl. rewrite Hset. simpl.
    split; [exact Hrec|]. split; [congruence|]. split.
    + rewrite stored_cons by lia.
      replace (Z.of_nat (S (length rest)) - 1) with (Z.of_nat (length rest)) by lia.
      rewrite Hst, Hkeep, Hbits by lia. by rewrite bool_decide_eq_true_2.
    + intros q Hq. rewrite Hkeep, Hbits by lia. by rewrite bool_decide_eq_false_2 by lia.
Qed.


(** ** The outcome of a probe *)

Section OutcomeFacts.
Context `{ICMPPing}.

Lemma first_done_unique polls status1 status2 :
  first_done polls status1 -> first_done polls status2 -> status1 = status2.
Proof.
  intros H1 H2. apply asyncWait_first_done in H1, H2. congruence.
Qed.

Lemma replyIsSuccess_true status : replyIsSuccess status = true <-> status = SUCCESS.
Proof. unfold replyIsSuccess. apply bool_decide_eq_true. Qed.

(** [doPing] of the later revision answers true exactly when the probe
    was dispatched and completed with [SUCCESS]. *)
Lemma Evolved_doPing_reached script reached :
  Evolved.doPing script = Ok reached ->
  reached = true <-> completes_with script SUCCESS.
Proof.
  destruct script as [[] status0 polls|status]; simpl.
  - intros (status & Hwait & [= <-])%bind_Ok.
    apply asyncWait_first_done in Hwait.
    rewrite replyIsSuccess_true. split.
    + intros ->. by constructor.
    + inversion 1; subst. by eapply first_done_unique.
  - intros [= <-]. split; [done|]. inversion 1.
  - intros [= <-]. rewrite replyIsSuccess_true. split.
    + intros ->. constructor.
    + by inversion 1.
Qed.
End OutcomeFacts.

(** ** The clock *)

Lemma nondecreasing_cons a rest :
  nondecreasing (a :: rest) = true ->
  nondecreasing rest = true /\ forall b, b ∈ rest -> a <= b.
Proof.
  revert a. induction rest as [|b rest IH]; intros a Hnd.
  - split; [done|]. intros b Hb. by apply elem_of_nil in Hb.
  - simpl in Hnd. apply andb_true_iff in Hnd as [Hab Hrest].
    apply Z.leb_le in Hab. split; [exact Hrest|].
    destruct (IH b Hrest) as [_ Hge].
    intros c [->|Hc]%elem_of_cons; [done|]. specialize (Hge c Hc). lia.
Qed.

Lemma mod_congruent a b q m : a = b + q * m -> a mod m = b mod m.
Proof. intros ->. apply Z_mod_plus_full. Qed.

(** The guard of the wait computes the elapsed time modulo 2^32. *)
Lemma elapsed_mod now start :
  to_ulong (millis now - to_ulong (to_long (millis start)))
  = (now - start) mod 2 ^ 32.
Proof.
  unfold millis, to_long, to_ulong.
  generalize (2 ^ 31). intros half.
  assert (2 ^ 32 <> 0) as Hm by lia. revert Hm. generalize (2 ^ 32). intros m Hm.
  pose proof (Z.div_mod now m Hm) as H1.
  pose proof (Z.div_mod start m Hm) as H2.
  pose proof (Z.div_mod (start mod m + half) m Hm) as H3.
  pose proof (Z.div_mod ((start mod m + half) mod m - half) m Hm) as H4.
  apply (mod_congruent _ _
           (start / m + (start mod m + half) / m
            + ((start mod m + half) mod m - half) / m - now / m)).
  lia.
Qed.

Section PacingFacts.
Variables ICMP_PING_TIMEOUT NUMBER_OF_IPS PROCESSING_LOOP_TIME : Z.

Local Abbreviation interval :=
  (to_ulong (PROCESSING_LOOP_INTERVAL ICMP_PING_TIMEOUT NUMBER_OF_IPS
               PROCESSING_LOOP_TIME)).
Local Abbreviation the_idleWait :=
  (idleWait ICMP_PING_TIMEOUT NUMBER_OF_IPS PROCESSING_LOOP_TIME).
Local Abbreviation the_loop_pacing :=
  (loop_pacing ICMP_PING_TIMEOUT NUMBER_OF_IPS PROCESSING_LOOP_TIME).
Local Abbreviation the_cycle_starts :=
  (cycle_starts ICMP_PING_TIMEOUT NUMBER_OF_IPS PROCESSING_LOOP_TIME).

(** The wait ends on a reading at least one interval after the start. *)
Lemma idleWait_elapsed clock : forall start finish rest,
  (forall t, t ∈ clock -> start <= t) ->
  the_idleWait (to_long (millis start)) clock = Ok (finish, rest) ->
  interval <= finish - start
  /\ exists waited, clock = waited ++ finish :: rest.
Proof.
  induction clock as [|now later IH]; intros start finish rest Hafter Hwait;
    simpl in Hwait; [done|].
  unfold stillWaiting in Hwait. rewrite elapsed_mod in Hwait.
  case_bool_decide as Hguard.
  - destruct (IH start finish rest) as [Hlast [waited ->]]; [|done|].
    + intros t Ht. apply Hafter. by right.
    + split; [done|]. by exists (now :: waited).
  - injection Hwait as <- <-. split; [|by exists []].
    assert (start <= now) as Hle by (apply Hafter; left).
    pose proof (Z.mod_le (now - start) (2 ^ 32)). lia.
Qed.

(** The wait ends as soon as a reading one interval after the start (and
    less than 2^32 ms after it) comes. *)
Lemma idleWait_returns clock start :
  (exists t, t ∈ clock /\ interval <= t - start < 2 ^ 32) ->
  exists finish rest, the_idleWait (to_long (millis start)) clock = Ok (finish, rest).
Proof.
  induction clock as [|now later IH]; intros (t & Ht & Hgap).
  - by apply elem_of_nil in Ht.
  - simpl. unfold stillWaiting. rewrite elapsed_mod.
    case_bool_decide as Hguard; [|eauto].
    apply IH. exists t. split; [|done].
    apply elem_of_cons in Ht as [->|Ht]; [|done].
    assert (0 <= interval) as Hnonneg
      by (unfold to_ulong; apply Z.mod_pos_bound; lia).
    rewrite Z.mod_small in Hguard; lia.
Qed.

Lemma loop_pacing_elapsed clock start finish rest :
  nondecreasing clock = true ->
  the_loop_pacing clock = Ok (start, finish, rest) ->
  interval <= finish - start
  /\ nondecreasing rest = true
  /\ (forall t, t ∈ rest -> finish <= t)
  /\ exists waited, clock = start :: waited ++ finish :: rest.
Proof.
  destruct clock as [|first later]; simpl; [done|].
  intros Hnd Hpace.
  destruct (idleWait _ _ _ _ later) as [[finish' rest']|] eqn:Hwait; simpl in Hpace;
    [|done].
  injection Hpace as -> -> ->.
  apply nondecreasing_cons in Hnd as [Hlater Hafter].
  destruct (idleWait_elapsed later start finish rest Hafter Hwait) as [Hgap [waited ->]].
  split; [done|].
  assert (nondecreasing (finish :: rest) = true) as Hfin.
  { clear -Hlater. induction waited as [|w waited IH]; [done|].
    apply IH. by apply (nondecreasing_cons w). }
  apply nondecreasing_cons in Hfin as [Hrest Hge].
  split; [done|]. split; [done|]. by exists waited.
Qed.

Lemma cycle_starts_head n clock start starts :
  the_cycle_starts n clock = Ok (start :: starts) -> exists rest, clock = start :: rest.
Proof.
  destruct n as [|n]; simpl; [done|].
  destruct clock as [|first later]; simpl; [done|].
  destruct (idleWait _ _ _ _ later) as [[finish rest]|]; simpl; [|done].
  destruct (cycle_starts _ _ _ n rest); simpl; [|done].
  intros [= -> _]. eauto.
Qed.

(** Successive cycles start at least one interval apart. *)
Lemma cycle_starts_apart n : forall clock starts,
  nondecreasing clock = true ->
  the_cycle_starts n clock = Ok starts ->
  forall (i : nat) a b,
    starts !! i = Some a -> starts !! S i = Some b -> interval <= b - a.
Proof.
  induction n as [|n IH]; intros clock starts Hnd Hstarts i a b Ha Hb.
  - simpl in Hstarts. injection Hstarts as <-. done.
  - simpl in Hstarts.
    destruct (loop_pacing _ _ _ clock) as [[[start finish] rest]|] eqn:Hpace;
      simpl in Hstarts; [|done].
    destruct (cycle_starts _ _ _ n rest) as [later|] eqn:Hlater;
      simpl in Hstarts; [|done].
    injection Hstarts as <-.
    destruct (loop_pacing_elapsed clock start finish rest Hnd Hpace)
      as (Hgap & Hrest & Hge & _).
    destruct i as [|i].
    + simpl in Ha, Hb. injection Ha as <-.
      destruct later as [|b' later]; [done|]. simpl in Hb. injection Hb as ->.
      destruct (cycle_starts_head _ _ _ _ Hlater) as [rest' ->].
      assert (finish <= b) by (apply Hge; left). lia.
    + simpl in Ha, Hb. by apply (IH rest later Hrest Hlater i).
Qed.
End PacingFacts.

(** * The claims *)

(** C9. Bit store round trip and locality: for every in-bounds position
    [pos] and boolean [v], [setBool] succeeds, a following [getBool] at
    [pos] returns [v], and [getBool] at every other in-bounds position
    returns what it returned before the call. *)
Theorem setBool_getBool_round_trip data pos v :
  0 <= pos < 8 * Z.of_nat (length data) -> pos <= INT_MAX ->
  exists data',
    setBool data pos v = Ok data'
    /\ getBool data' pos = Ok v
    /\ forall q,
         0 <= q < 8 * Z.of_nat (length data) -> q <= INT_MAX -> q <> pos ->
         getBool data' q = getBool data q.
Proof.
  intros Hpos Hint.
  destruct (setBool_bit_at data pos v Hpos Hint) as (data' & Hset & Hlen & Hbits).
  exists data'. split; [done|]. split.
  - rewrite getBool_bit_at by (rewrite ?Hlen; lia).
    rewrite Hbits by lia. by rewrite bool_decide_eq_true_2.
  - intros q Hq Hqint Hne.
    rewrite !getBool_bit_at by (rewrite ?Hlen; lia).
    rewrite Hbits by lia. by rewrite bool_decide_eq_false_2.
Qed.

Lemma setBool_getBool_round_trip_witness :
  (0 <= 9 < 8 * Z.of_nat (length [0; 255])) /\ 9 <= INT_MAX
  /\ exists data',
       setBool [0; 255] 9 false = Ok data'
       /\ getBool data' 9 = Ok false
       /\ forall q,
            0 <= q < 8 * Z.of_nat (length [0; 255]) -> q <= INT_MAX -> q <> 9 ->
            getBool data' q = getBool [0; 255] q.
Proof.
  split; [simpl; lia|]. split; [unfold INT_MAX; lia|].
  apply (setBool_getBool_round_trip [0; 255] 9 false); [simpl; lia|unfold INT_MAX; lia].
Defined.

(** C8. The write cursor stays in [0, PING_MAX_COUNT): one call of
    [currentPingNumInc] advances it modulo the capacity; after [k] calls
    from the initial globals it is [k mod PING_MAX_COUNT] and [firstRun]
    is still true exactly when [k < PING_MAX_COUNT], so the flag drops
    when the first lap completes and never comes back; one call of [loop]
    moves the cursor and the flag exactly as one call of
    [currentPingNumInc] does. *)
Theorem cursor_stays_in_range {B A : Type} (PING_MAX_COUNT : Z) :
  0 < PING_MAX_COUNT <= INT_MAX ->
  (forall st : monitor B A,
      0 <= currentPingNum st < PING_MAX_COUNT ->
      let st' := currentPingNumInc PING_MAX_COUNT st in
      0 <= currentPingNum st' < PING_MAX_COUNT
      /\ currentPingNum st' = (currentPingNum st + 1) mod PING_MAX_COUNT
      /\ firstRun st'
         = firstRun st && negb (bool_decide (currentPingNum st + 1 = PING_MAX_COUNT)))
  /\ (forall (st0 : monitor B A) (k : nat),
        currentPingNum st0 = 0 -> firstRun st0 = true ->
        let st := Nat.iter k (currentPingNumInc PING_MAX_COUNT) st0 in
        0 <= currentPingNum st < PING_MAX_COUNT
        /\ currentPingNum st = Z.of_nat k mod PING_MAX_COUNT
        /\ firstRun st = bool_decide (Z.of_nat k < PING_MAX_COUNT))
  /\ (forall `{ICMPPing} store_setBool store_avg doPing scripts (st st' : monitor B A),
        loop PING_MAX_COUNT store_setBool store_avg doPing scripts st = Ok st' ->
        currentPingNum st' = currentPingNum (currentPingNumInc PING_MAX_COUNT st)
        /\ firstRun st' = firstRun (currentPingNumInc PING_MAX_COUNT st)).
Proof.
  intros Hcap. split; [|split].
  - intros st Hcur st'. subst st'. unfold currentPingNumInc.
    rewrite to_int_id by (unfold INT_MIN, INT_MAX in *; lia).
    destruct (decide (currentPingNum st + 1 = PING_MAX_COUNT)) as [Hwrap|Hwrap].
    + rewrite !(bool_decide_eq_true_2 _ Hwrap). simpl.
      rewrite Hwrap. rewrite Z.mod_same by lia. rewrite andb_false_r.
      split; [lia|done].
    + rewrite !(bool_decide_eq_false_2 _ Hwrap). simpl.
      rewrite Z.mod_small by lia. rewrite andb_true_r.
      split; [lia|done].
  - intros st0 k Hcur Hfirst st. subst st.
    assert (currentPingNum (Nat.iter k (currentPingNumInc PING_MAX_COUNT) st0)
            = Z.of_nat k mod PING_MAX_COUNT
            /\ firstRun (Nat.iter k (currentPingNumInc PING_MAX_COUNT) st0)
               = bool_decide (Z.of_nat k < PING_MAX_COUNT)) as [Hk Hf].
    { induction k as [|k [IHc IHf]].
      - simpl. rewrite Hcur, Hfirst. split; [done|].
        symmetry. apply bool_decide_eq_true_2. lia.
      - rewrite Nat.iter_succ. by apply inc_closed_form. }
    split; [|done]. rewrite Hk. apply Z.mod_pos_bound. lia.
  - intros Hicmp store_setBool store_avg doPing scripts st st' Hloop.
    apply loop_effect in Hloop as (_ & Hc & Hf & _). done.
Qed.

Lemma cursor_stays_in_range_witness :
  0 < Earlier.PING_MAX_COUNT <= INT_MAX
  /\ let st := Nat.iter 250 (currentPingNumInc Earlier.PING_MAX_COUNT)
                 (Earlier.setup Earlier.PING_MAX_COUNT) in
     0 <= currentPingNum st < Earlier.PING_MAX_COUNT
     /\ currentPingNum st = Z.of_nat 250 mod Earlier.PING_MAX_COUNT
     /\ firstRun st = bool_decide (Z.of_nat 250 < Earlier.PING_MAX_COUNT).
Proof.
  assert (0 < Earlier.PING_MAX_COUNT <= INT_MAX) as Hcap
    by (vm_compute; split; [reflexivity|discriminate]).
  split; [exact Hcap|].
  destruct (cursor_stays_in_range (B:=list Z) (A:=Z) Earlier.PING_MAX_COUNT Hcap)
    as (_ & Hiter & _).
  apply (Hiter (Earlier.setup Earlier.PING_MAX_COUNT) 250%nat); reflexivity.
Defined.

(** C10. Storage sizing: with the configured [PING_MAX_COUNT] of 100 the
    three arrays have [PING_BYTE_MAX] = 13 bytes; every position below
    [PING_MAX_COUNT] has its byte index below [PING_BYTE_MAX], so [setBool]
    and [getBool] on such an array stay inside it, and the main loop, from
    the state left by [setup], never leaves the arrays and never changes
    their size.  The sizing is [(capacity + 4) / 8]: it rounds to the
    nearest integer and is no ceiling; for a capacity of 9 it yields one
    byte, and position 8 is outside. *)
Theorem ping_arrays_hold_every_position :
  PING_BYTE_MAX Earlier.PING_MAX_COUNT = 13
  /\ (forall pos,
        0 <= pos < Earlier.PING_MAX_COUNT ->
        0 <= to_int (Z.quot pos 8) < PING_BYTE_MAX Earlier.PING_MAX_COUNT
        /\ forall data v,
             Z.of_nat (length data) = PING_BYTE_MAX Earlier.PING_MAX_COUNT ->
             (exists data', setBool data pos v = Ok data' /\ length data' = length data)
             /\ (exists b, getBool data pos = Ok b))
  /\ (forall `{ICMPPing} cycles,
        forallb cycle_answers cycles = true ->
        exists st,
          Earlier.run Earlier.PING_MAX_COUNT cycles
            (Earlier.setup Earlier.PING_MAX_COUNT) = Ok st
          /\ forall t, Z.of_nat (length (pings t st))
                       = PING_BYTE_MAX Earlier.PING_MAX_COUNT)
  /\ (forall capacity,
        0 <= capacity <= INT_MAX -> PING_BYTE_MAX capacity = (capacity + 4) / 8)
  /\ (PING_BYTE_MAX 9 = 1
      /\ setBool (replicate (Z.to_nat (PING_BYTE_MAX 9)) 0) 8 true = Fault OutOfBounds).
Proof.
  assert (PING_BYTE_MAX Earlier.PING_MAX_COUNT = 13) as Hsize by reflexivity.
  split; [exact Hsize|]. rewrite Hsize. change Earlier.PING_MAX_COUNT with 100 in *.
  split; [|split; [|split; [apply PING_BYTE_MAX_eq | split; reflexivity]]].
  - intros pos Hpos.
    destruct (int_pos_split pos) as [Hbyte _]; [unfold INT_MAX; lia|].
    pose proof (Z.div_mod pos 8). pose proof (Z.mod_pos_bound pos 8).
    split; [rewrite Hbyte; lia|].
    intros data v Hlen. split.
    + destruct (setBool_bit_at data pos v) as (data' & Hset & Hlen' & _);
        [lia | unfold INT_MAX; lia | eauto].
    + exists (bit_at data pos). apply getBool_bit_at; [lia | unfold INT_MAX; lia].
  - intros Hicmp cycles Hans.
    destruct (run_setup_tracks 100) with (cycles := cycles) as (st & Hrun & Htr);
      [lia | unfold INT_MAX; lia | rewrite Hsize; lia | exact Hans |].
    exists st. split; [exact Hrun|].
    intros t. destruct Htr as (_ & _ & Hall). destruct (Hall t) as (_ & Hlen & _).
    by rewrite Hlen.
Qed.

Lemma ping_arrays_hold_every_position_witness :
  (0 <= 99 < Earlier.PING_MAX_COUNT
   /\ 0 <= to_int (Z.quot 99 8) < PING_BYTE_MAX Earlier.PING_MAX_COUNT)
  /\ (forallb cycle_answers [cycle_of true false false; cycle_of false false true] = true
      /\ exists st,
           Earlier.run Earlier.PING_MAX_COUNT
             [cycle_of true false false; cycle_of false false true]
             (Earlier.setup Earlier.PING_MAX_COUNT) = Ok st
           /\ forall t, Z.of_nat (length (pings t st))
                        = PING_BYTE_MAX Earlier.PING_MAX_COUNT).
Proof.
  destruct ping_arrays_hold_every_position as (_ & Hpos & Hrun & _).
  split.
  - assert (0 <= 99 < Earlier.PING_MAX_COUNT) as H99
      by (unfold Earlier.PING_MAX_COUNT; lia).
    split; [exact H99|]. exact (proj1 (Hpos 99 H99)).
  - split; [reflexivity|]. apply (Hrun EchoPing). reflexivity.
Defined.

(** C1. Warm-up averaging, for any sample store (the byte arrays with
    [getAvgBool] as well as BoolBits with [getFloatAvgBool]): after any
    nonempty sequence of cycles from the initial cursor, each target's
    loss is the store's average over [0, currentPingNum) while [firstRun]
    holds and over [0, PING_MAX_COUNT) afterwards; that window has as many
    positions as cycles were run, up to the capacity; and a position is in
    the window exactly when some cycle of the sequence stored its three
    samples there. *)
Theorem average_over_written_window `{ICMPPing} {B A : Type} (PING_MAX_COUNT : Z)
    (store_setBool : B -> Z -> bool -> res B) (store_avg : B -> Z -> Z -> res A)
    (doPing : PingScript -> res bool) (cycles : list (Target -> PingScript))
    (st0 st : monitor B A) :
  0 < PING_MAX_COUNT <= INT_MAX ->
  currentPingNum st0 = 0 -> firstRun st0 = true ->
  cycles <> [] ->
  run PING_MAX_COUNT store_setBool store_avg doPing cycles st0 = Ok st ->
  (forall t,
      store_avg (pings t st) 0
        (if firstRun st then currentPingNum st else PING_MAX_COUNT)
      = Ok (loss t st))
  /\ (if firstRun st then currentPingNum st else PING_MAX_COUNT)
     = Z.min (Z.of_nat (length cycles)) PING_MAX_COUNT
  /\ (forall p,
        0 <= p < (if firstRun st then currentPingNum st else PING_MAX_COUNT) <->
        exists (j : nat) scripts (st_j st_j' : monitor B A),
          cycles !! j = Some scripts
          /\ run PING_MAX_COUNT store_setBool store_avg doPing (take j cycles) st0
             = Ok st_j
          /\ loop PING_MAX_COUNT store_setBool store_avg doPing scripts st_j
             = Ok st_j'
          /\ currentPingNum st_j = p
          /\ forall t, exists sample,
               store_setBool (pings t st_j) p sample = Ok (pings t st_j')).
Proof.
  intros Hcap Hcur0 Hfirst0 Hne Hrun.
  assert (currentPingNum st0 = Z.of_nat 0 mod PING_MAX_COUNT) as Hk0
    by (rewrite Hcur0, Z.mod_0_l; lia).
  assert (firstRun st0 = bool_decide (Z.of_nat 0 < PING_MAX_COUNT)) as Hf0
    by (rewrite Hfirst0; symmetry; apply bool_decide_eq_true_2; lia).
  destruct (run_cursor _ _ _ _ cycles 0 st0 st Hcap Hk0 Hf0 Hrun) as [Hk Hf].
  simpl in Hk, Hf.
  pose proof (window_closed_form PING_MAX_COUNT (length cycles) st (proj1 Hcap) Hk Hf)
    as Hwin. unfold window in Hwin.
  split; [|split; [exact Hwin|]].
  - exact (run_last_average _ _ _ _ _ _ _ Hne Hrun).
  - intros p. rewrite Hwin. split.
    + intros Hp.
      destruct (lookup_lt_is_Some_2 cycles (Z.to_nat p)) as [scripts Hj]; [lia|].
      exists (Z.to_nat p), scripts.
      rewrite <- (take_drop (Z.to_nat p) cycles), run_app in Hrun.
      apply bind_Ok in Hrun as (st_j & Hrun_j & Hrest).
      rewrite (drop_S _ _ _ Hj) in Hrest. simpl in Hrest.
      apply bind_Ok in Hrest as (st_j' & Hloop & _).
      exists st_j, st_j'. split; [exact Hj|]. split; [exact Hrun_j|].
      split; [exact Hloop|].
      destruct (run_cursor _ _ _ _ _ 0 st0 st_j Hcap Hk0 Hf0 Hrun_j) as [Hkj _].
      assert (currentPingNum st_j = p) as Hp_j.
      { rewrite Hkj, length_take. simpl. rewrite Z.mod_small; lia. }
      split; [exact Hp_j|].
      apply loop_effect in Hloop as (Hstore & _).
      intros t. destruct (Hstore t) as (reached & _ & Hset).
      exists (negb reached). by rewrite <- Hp_j.
    + intros (j & scripts & st_j & st_j' & Hj & Hrun_j & _ & <- & _).
      apply lookup_lt_Some in Hj.
      destruct (run_cursor _ _ _ _ _ 0 st0 st_j Hcap Hk0 Hf0 Hrun_j) as [Hkj _].
      rewrite Hkj, length_take. simpl.
      replace (j `min` length cycles)%nat with j by lia.
      pose proof (Z.mod_pos_bound (Z.of_nat j) PING_MAX_COUNT).
      pose proof (Z.mod_le (Z.of_nat j) PING_MAX_COUNT). lia.
Qed.

Lemma average_over_written_window_witness :
  Earlier.run 4 [cycle_of true false false; cycle_of false false true]
    (Earlier.setup 4) = Ok (Monitor [1] [0] [2] 2 true 50 0 50)
  /\ (forall t,
         getAvgBool (pings t (Monitor [1] [0] [2] 2 true 50 0 50)) 0 2
         = Ok (loss t (Monitor [1] [0] [2] 2 true 50 0 50)))
  /\ 2 = Z.min (Z.of_nat (length [cycle_of true false false; cycle_of false false true])) 4.
Proof.
  assert (Earlier.run 4 [cycle_of true false false; cycle_of false false true]
            (Earlier.setup 4) = Ok (Monitor [1] [0] [2] 2 true 50 0 50)) as Hrun
    by reflexivity.
  split; [exact Hrun|].
  assert (0 < 4 <= INT_MAX) as Hcap by (unfold INT_MAX; lia).
  assert ([cycle_of true false false; cycle_of false false true] <> []) as Hne
    by discriminate.
  destruct (average_over_written_window 4 setBool getAvgBool Earlier.doPing _
              (Earlier.setup 4) _ Hcap eq_refl eq_refl Hne Hrun) as (Havg & Hwin & _).
  split; [exact Havg | exact Hwin].
Defined.

(** C3. Filling the buffer once: after exactly [capacity] cycles the
    window is the whole buffer, [firstRun] is false and the cursor is back
    at 0; each array holds the samples in the order they were recorded and
    the loss is their percentage.  The next cycle writes its sample at
    position 0: the array then holds the same samples with the oldest one
    replaced, and the loss is the percentage over that window. *)
Theorem full_buffer_wraps_to_start `{ICMPPing} (capacity : Z)
    (cycles : list (Target -> PingScript)) (next : Target -> PingScript) :
  0 < capacity -> capacity * 100 <= INT_MAX ->
  capacity <= 8 * PING_BYTE_MAX capacity ->
  Z.of_nat (length cycles) = capacity ->
  forallb cycle_answers cycles = true -> cycle_answers next = true ->
  exists st st',
    Earlier.run capacity cycles (Earlier.setup capacity) = Ok st
    /\ Earlier.loop capacity next st = Ok st'
    /\ window capacity st = capacity /\ firstRun st = false
    /\ currentPingNum st = 0
    /\ window capacity st' = capacity /\ firstRun st' = false
    /\ forall t,
         let old := samples_of Earlier.doPing cycles t in
         let v := sample_of Earlier.doPing (next t) in
         stored (pings t st) 0 capacity = old
         /\ loss t st = count_true old * 100 / capacity
         /\ setBool (pings t st) 0 v = Ok (pings t st')
         /\ stored (pings t st') 0 capacity = <[0%nat := v]> old
         /\ loss t st' = count_true (<[0%nat := v]> old) * 100 / capacity.
Proof.
  intros Hpos Hpercent Hfit Hlen Hans Hnext.
  assert (capacity <= INT_MAX) as Hint by (unfold INT_MAX in *; lia).
  destruct (run_setup_tracks capacity Hpos Hint Hfit cycles Hans) as (st & Hrun & Htr).
  destruct (loop_tracks capacity Hpos Hint Hfit _ _ next st Htr Hnext)
    as (st' & Hloop & Htr' & Hset & _).
  pose proof (tracks_window capacity _ _ _ Htr) as Hwin.
  pose proof (tracks_window capacity _ _ _ Htr') as Hwin'.
  rewrite bool_decide_eq_false_2 in Hwin by lia.
  rewrite bool_decide_eq_false_2 in Hwin' by lia.
  assert (cycles <> []) as Hne by (intros ->; simpl in Hlen; lia).
  pose proof (run_last_average _ _ _ _ _ _ _ Hne Hrun) as Havg.
  pose proof (run_last_average capacity setBool getAvgBool Earlier.doPing
                [next] st st' ltac:(done)) as Havg'.
  unfold Earlier.loop in Hloop. simpl in Havg'. rewrite Hloop in Havg'.
  specialize (Havg' eq_refl).
  exists st, st'. split; [exact Hrun|]. split; [exact Hloop|].
  destruct Htr as (Hcur & Hfirst & Hall).
  destruct Htr' as (Hcur' & Hfirst' & Hall').
  split; [exact Hwin|]. split; [by rewrite Hfirst, bool_decide_eq_false_2 by lia|].
  split; [by rewrite Hcur, Hlen, Z.mod_same by lia|].
  split; [exact Hwin'|]. split; [by rewrite Hfirst', bool_decide_eq_false_2 by lia|].
  intros t old v.
  assert (length old = Z.to_nat capacity) as Hold
    by (subst old; unfold samples_of; rewrite length_fmap; lia).
  assert (stored (pings t st) 0 capacity = old) as Hst.
  { destruct (Hall t) as (_ & _ & ->). by apply ring_of_full. }
  assert (stored (pings t st') 0 capacity = <[0%nat := v]> old) as Hst'.
  { destruct (Hall' t) as (_ & _ & ->).
    rewrite ring_of_snoc. fold old. rewrite Hold, Nat.Div0.mod_same.
    by rewrite ring_of_full. }
  assert (currentPingNum st = 0) as Hzero by (rewrite Hcur, Hlen, Z.mod_same; lia).
  split; [exact Hst|]. split; [|split; [|split; [exact Hst'|]]].
  - specialize (Havg t). rewrite Hwin in Havg.
    rewrite getAvgBool_percent in Havg.
    + rewrite Z.sub_0_r, Hst in Havg. by injection Havg as <-.
    + lia.
    + destruct (Hall t) as (_ & Hbytes & _). lia.
    + done.
    + lia.
  - specialize (Hset t). by rewrite Hzero in Hset.
  - specialize (Havg' t). rewrite Hwin' in Havg'.
    rewrite getAvgBool_percent in Havg'.
    + rewrite Z.sub_0_r, Hst' in Havg'. by injection Havg' as <-.
    + lia.
    + destruct (Hall' t) as (_ & Hbytes & _). lia.
    + done.
    + lia.
Qed.

Lemma full_buffer_wraps_to_start_witness :
  exists st st',
    Earlier.run 4 [cycle_of true false false; cycle_of false false false;
                   cycle_of false false false; cycle_of false false false]
      (Earlier.setup 4) = Ok st
    /\ Earlier.loop 4 (cycle_of true true true) st = Ok st'
    /\ loss Gateway st = 25 /\ loss Gateway st' = 25
    /\ loss FirstAddr st = 0 /\ loss FirstAddr st' = 25.
Proof.
  destruct (full_buffer_wraps_to_start 4
              [cycle_of true false false; cycle_of false false false;
               cycle_of false false false; cycle_of false false false]
              (cycle_of true true true))
    as (st & st' & Hrun & Hloop & _ & _ & _ & _ & _ & Hall);
    [lia | unfold INT_MAX; lia | vm_compute; discriminate | reflexivity
    | reflexivity | reflexivity |].
  exists st, st'. split; [exact Hrun|]. split; [exact Hloop|].
  destruct (Hall Gateway) as (_ & Hg & _ & _ & Hg').
  destruct (Hall FirstAddr) as (_ & Hf & _ & _ & Hf').
  rewrite Hg, Hg', Hf, Hf'. repeat split; reflexivity.
Defined.

(** C2, as the spec words it, fails on the integer average: with three
    recorded samples of which one is true, [getAvgBool] over [0, 3)
    returns 33, which is not the exact share (one third) of true values. *)
Lemma integer_average_truncates :
  record_from (replicate (Z.to_nat (PING_BYTE_MAX 4)) 0) 0 [true; false; false]
  = Ok [1]
  /\ getAvgBool [1] 0 3 = Ok 33
  /\ ~ exact_percentage 33 [true; false; false].
Proof.
  split; [reflexivity|]. split; [reflexivity|].
  unfold exact_percentage. simpl. lia.
Qed.

(** Beyond 327 samples the hundredfold count leaves the 16-bit [int]:
    328 true samples average to -99. *)
Lemma integer_average_overflows :
  getAvgBool (replicate 41 255) 0 328 = Ok (-99).
Proof. vm_compute. reflexivity. Qed.

(** C2, amended. For every array, whatever its size and contents, and
    every sequence of [N >= 1] samples that fits in it, with [N <= 327] so
    that the hundredfold count fits an [int]: after the samples are
    recorded at positions [0, N), [getAvgBool] over [0, N) returns the
    integer percentage of true values among them, [count * 100 / N]
    truncated; it is the exact share when [N] divides [count * 100]. *)
Theorem integer_average_of_recorded_samples (data0 : list Z) (vs : list bool) :
  1 <= Z.of_nat (length vs) ->
  Z.of_nat (length vs) <= 8 * Z.of_nat (length data0) ->
  Z.of_nat (length vs) * 100 <= INT_MAX ->
  exists data r,
    record_from data0 0 vs = Ok data
    /\ getAvgBool data 0 (Z.of_nat (length vs)) = Ok r
    /\ r = count_true vs * 100 / Z.of_nat (length vs)
    /\ r * Z.of_nat (length vs) <= 100 * count_true vs < (r + 1) * Z.of_nat (length vs)
    /\ ((Z.of_nat (length vs) | count_true vs * 100) -> exact_percentage r vs).
Proof.
  intros Hone Hfit Hpercent.
  destruct (record_from_stored vs data0 0) as (data & Hrec & Hlen & Hst & _);
    [lia | lia | unfold INT_MAX in *; lia |].
  exists data, (count_true vs * 100 / Z.of_nat (length vs)).
  split; [exact Hrec|]. split.
  - rewrite getAvgBool_percent by (unfold INT_MAX in *; lia).
    by rewrite Z.sub_0_r, Hst.
  - split; [done|].
    pose proof (Z.div_mod (count_true vs * 100) (Z.of_nat (length vs))) as Hdm.
    pose proof (Z.mod_pos_bound (count_true vs * 100) (Z.of_nat (length vs))) as Hm.
    split; [lia|].
    intros Hdiv. unfold exact_percentage.
    apply Z.mod_divide in Hdiv; lia.
Qed.

Lemma integer_average_of_recorded_samples_witness :
  exists data r,
    record_from [0; 0] 0 [true; false; false; true] = Ok data
    /\ getAvgBool data 0 4 = Ok r
    /\ r = 50.
Proof.
  destruct (integer_average_of_recorded_samples [0; 0] [true; false; false; true])
    as (data & r & Hrec & Havg & Hr & _);
    [simpl; lia | simpl; lia | unfold INT_MAX; simpl; lia |].
  exists data, r. split; [exact Hrec|]. split; [exact Havg|]. exact Hr.
Defined.

(** C4, as the spec words it, fails: on the empty range [0, 0) the
    average divides by zero and yields no result. *)
Lemma empty_range_divides_by_zero :
  getAvgBool (gatewayPings (Earlier.setup Earlier.PING_MAX_COUNT)) 0 0
  = Fault DivideByZero
  /\ ~ exists r,
         getAvgBool (gatewayPings (Earlier.setup Earlier.PING_MAX_COUNT)) 0 0 = Ok r.
Proof.
  assert (getAvgBool (gatewayPings (Earlier.setup Earlier.PING_MAX_COUNT)) 0 0
          = Fault DivideByZero) as Hdiv by reflexivity.
  split; [exact Hdiv|]. intros [r Hr]. rewrite Hdiv in Hr. discriminate.
Qed.

(** C4, amended. [getAvgBool] returns a percentage on every nonempty
    range inside the array and divides by zero on every empty one; the
    main loop never asks for an empty range: from the state left by
    [setup], any nonempty sequence of answered cycles runs without a fault
    and leaves a window of at least one position. *)
Theorem average_defined_on_nonempty_range :
  (forall data startPos endPos,
      0 <= startPos < endPos -> endPos <= 8 * Z.of_nat (length data) ->
      endPos <= INT_MAX ->
      exists r, getAvgBool data startPos endPos = Ok r)
  /\ (forall data pos, getAvgBool data pos pos = Fault DivideByZero)
  /\ (forall `{ICMPPing} capacity cycles,
        0 < capacity <= INT_MAX -> capacity <= 8 * PING_BYTE_MAX capacity ->
        cycles <> [] -> forallb cycle_answers cycles = true ->
        exists st,
          Earlier.run capacity cycles (Earlier.setup capacity) = Ok st
          /\ 0 < window capacity st <= capacity
          /\ forall t, getAvgBool (pings t st) 0 (window capacity st)
                       = Ok (loss t st)).
Proof.
  split; [|split].
  - intros data startPos endPos Hrange Hfit Hint.
    rewrite getAvgBool_int_div by lia.
    unfold int_div. rewrite bool_decide_eq_false_2 by lia. eauto.
  - intros data pos. unfold getAvgBool.
    rewrite Z.sub_diag. simpl. by rewrite bool_decide_eq_false_2 by lia.
  - intros Hicmp capacity cycles [Hpos Hint] Hfit Hne Hans.
    destruct (run_setup_tracks capacity Hpos Hint Hfit cycles Hans) as (st & Hrun & Htr).
    exists st. split; [exact Hrun|]. split.
    + rewrite (tracks_window capacity _ _ _ Htr).
      destruct cycles; [done|]. simpl length. case_bool_decide; lia.
    + exact (run_last_average _ _ _ _ _ _ _ Hne Hrun).
Qed.

Lemma average_defined_on_nonempty_range_witness :
  (0 <= 0 < 3 /\ exists r, getAvgBool [5] 0 3 = Ok r)
  /\ exists st,
       Earlier.run 4 [cycle_of true false true] (Earlier.setup 4) = Ok st
       /\ 0 < window 4 st <= 4.
Proof.
  destruct average_defined_on_nonempty_range as (Hdef & _ & Hloop).
  split.
  - split; [lia|]. apply Hdef; [lia | simpl; lia | unfold INT_MAX; lia].
  - destruct (Hloop EchoPing 4 [cycle_of true false true]) as (st & Hrun & Hwin & _);
      [unfold INT_MAX; lia | vm_compute; discriminate | discriminate | reflexivity |].
    exists st. split; [exact Hrun | exact Hwin].
Defined.

(** C5. In [DhcpPingMonitor.ino] the sample stored for a target is true,
    a loss, exactly when the probe did not complete with status
    [SUCCESS].  A probe whose request could not be sent makes [doPing]
    return false without a fault, whatever the transport would answer
    afterwards, and is stored as a loss; a probe that the transport
    answers always makes [doPing] return. *)
Theorem lost_probe_recorded_as_loss `{ICMPPing} {BoolBits float : Type}
    (bb_setBool : BoolBits -> Z -> bool -> res BoolBits)
    (bb_getFloatAvgBool : BoolBits -> Z -> Z -> res float) :
  (forall scripts (st st' : monitor BoolBits float),
      Evolved.loop bb_setBool bb_getFloatAvgBool scripts st = Ok st' ->
      forall t, exists sample,
        bb_setBool (pings t st) (currentPingNum st) sample = Ok (pings t st')
        /\ (sample = true <-> ~ completes_with (scripts t) SUCCESS)
        /\ (send_failed (scripts t) -> sample = true))
  /\ (forall script, send_failed script -> Evolved.doPing script = Ok false)
  /\ (forall script, answers script = true ->
        exists reached, Evolved.doPing script = Ok reached).
Proof.
  split; [|split].
  - intros scripts st st' Hloop t.
    apply loop_effect in Hloop as (Hstore & _).
    destruct (Hstore t) as (reached & Hping & Hset).
    exists (negb reached). split; [exact Hset|].
    pose proof (Evolved_doPing_reached _ _ Hping) as Hreached.
    split.
    + rewrite negb_true_iff, <- Hreached. by destruct reached.
    + intros Hfail. destruct (scripts t) as [started status0 polls|status];
        simpl in Hfail; [subst started|done].
      simpl in Hping. by injection Hping as <-.
  - intros [started status0 polls|status]; simpl; [by intros ->|done].
  - apply Evolved_doPing_answers.
Qed.

Lemma lost_probe_recorded_as_loss_witness :
  exists st',
    Evolved.loop setBool getAvgBool
      (fun t => match t with Gateway => unsent_script | _ => reached_script end)
      (Earlier.setup 300) = Ok st'
    /\ setBool (pings Gateway (Earlier.setup 300)) 0 true = Ok (pings Gateway st')
    /\ send_failed unsent_script.
Proof.
  destruct (lost_probe_recorded_as_loss (H:=EchoPing) setBool getAvgBool)
    as (Hrecorded & _ & _).
  eexists. split; [reflexivity|]. split; [|reflexivity].
  match goal with
  | |- setBool _ _ _ = Ok (pings _ ?st') =>
      destruct (Hrecorded
                  (fun t => match t with Gateway => unsent_script | _ => reached_script end)
                  (Earlier.setup 300) st' eq_refl Gateway)
        as (sample & Hset & _ & Hsent)
  end.
  rewrite (Hsent eq_refl) in Hset. exact Hset.
Defined.

(** C6. In [DhcpPingMonitor.ino] the cycle interval is
    950 x 3 + 150 = 3000 ms.  With a clock that never runs backwards, the
    wait at the end of [loop] ends no sooner than 3000 ms after the time
    read at its start, every later reading of the clock is at least that
    far from the start, and so successive cycles start at least 3000 ms
    apart.  The wait does end once the clock shows such a time. *)
Theorem cycle_lasts_full_interval :
  Evolved.PROCESSING_LOOP_INTERVAL = 3000
  /\ (forall clock start finish rest,
        nondecreasing clock = true ->
        Evolved.loop_pacing clock = Ok (start, finish, rest) ->
        3000 <= finish - start /\ forall t, t ∈ rest -> 3000 <= t - start)
  /\ (forall n clock starts,
        nondecreasing clock = true ->
        Evolved.cycle_starts n clock = Ok starts ->
        forall (i : nat) a b,
          starts !! i = Some a -> starts !! S i = Some b -> 3000 <= b - a)
  /\ (forall start clock,
        (exists t, t ∈ clock /\ 3000 <= t - start < 2 ^ 32) ->
        exists finish rest,
          Evolved.loop_pacing (start :: clock) = Ok (start, finish, rest)).
Proof.
  assert (to_ulong (PROCESSING_LOOP_INTERVAL Evolved.ICMP_PING_TIMEOUT
                      Evolved.NUMBER_OF_IPS Evolved.PROCESSING_LOOP_TIME) = 3000)
    as Hinterval by reflexivity.
  split; [reflexivity|]. split; [|split].
  - intros clock start finish rest Hnd Hpace.
    apply loop_pacing_elapsed in Hpace as (Hgap & _ & Hge & _); [|done].
    rewrite Hinterval in Hgap. split; [done|].
    intros t Ht. specialize (Hge t Ht). lia.
  - intros n clock starts Hnd Hstarts i a b Ha Hb.
    rewrite <- Hinterval. by eapply cycle_starts_apart.
  - intros start clock Hlate. rewrite <- Hinterval in Hlate.
    destruct (idleWait_returns _ _ _ clock start Hlate) as (finish & rest & Hwait).
    exists finish, rest. unfold Evolved.loop_pacing, loop_pacing. by rewrite Hwait.
Qed.

Lemma cycle_lasts_full_interval_witness :
  nondecreasing [40; 41; 900; 3039; 3040; 3041; 3042; 6041; 6050] = true
  /\ Evolved.cycle_starts 2 [40; 41; 900; 3039; 3040; 3041; 3042; 6041; 6050]
     = Ok [40; 3041]
  /\ 3000 <= 3041 - 40.
Proof.
  split; [reflexivity|]. split; [reflexivity|].
  destruct cycle_lasts_full_interval as (_ & _ & Hstarts & _).
  apply (Hstarts 2%nat [40; 41; 900; 3039; 3040; 3041; 3042; 6041; 6050]
           [40; 3041] eq_refl eq_refl 0%nat 40 3041); reflexivity.
Defined.

(** C7. Recording for one target leaves the others alone, for any sample
    store: the statement that pings target [t] and stores its sample, and
    the statement that recomputes the loss of [t], leave the buffer and the
    loss of every other target as they were; and two calls of [loop] from
    the same state whose scripts differ only for [t] leave the same buffer
    and the same loss for every other target. *)
Theorem record_touches_one_target `{ICMPPing} {B A : Type} (PING_MAX_COUNT : Z)
    (store_setBool : B -> Z -> bool -> res B) (store_avg : B -> Z -> Z -> res A)
    (doPing : PingScript -> res bool) (t t' : Target) :
  t <> t' ->
  (forall script (st st' : monitor B A),
      pingAndStore store_setBool doPing t script st = Ok st' ->
      pings t' st' = pings t' st /\ loss t' st' = loss t' st)
  /\ (forall st st' : monitor B A,
        computeLoss PING_MAX_COUNT store_avg t st = Ok st' ->
        pings t' st' = pings t' st /\ loss t' st' = loss t' st)
  /\ (forall scripts1 scripts2 (st st1 st2 : monitor B A),
        (forall u, u <> t -> scripts1 u = scripts2 u) ->
        loop PING_MAX_COUNT store_setBool store_avg doPing scripts1 st = Ok st1 ->
        loop PING_MAX_COUNT store_setBool store_avg doPing scripts2 st = Ok st2 ->
        pings t' st1 = pings t' st2 /\ loss t' st1 = loss t' st2).
Proof.
  intros Hne. split; [|split].
  - intros script st st' (reached & data & _ & _ & ->)%pingAndStore_Ok.
    rewrite pings_set_pings, loss_set_pings. by rewrite decide_False.
  - intros st st' (a & _ & ->)%computeLoss_Ok.
    rewrite pings_set_loss, loss_set_loss. by rewrite decide_False.
  - intros scripts1 scripts2 st st1 st2 Hsame Hloop1 Hloop2.
    apply loop_effect in Hloop1 as (Hstore1 & Hc1 & Hf1 & Havg1).
    apply loop_effect in Hloop2 as (Hstore2 & Hc2 & Hf2 & Havg2).
    destruct (Hstore1 t') as (r1 & Hping1 & Hset1).
    destruct (Hstore2 t') as (r2 & Hping2 & Hset2).
    rewrite Hsame in Hping1 by done.
    assert (r1 = r2) as -> by congruence.
    assert (pings t' st1 = pings t' st2) as Hpings by congruence.
    split; [exact Hpings|].
    specialize (Havg1 t'). specialize (Havg2 t').
    rewrite Hpings in Havg1.
    rewrite (window_cursor PING_MAX_COUNT st1 st2) in Havg1 by congruence.
    congruence.
Qed.

Lemma record_touches_one_target_witness :
  Gateway <> SecondAddr
  /\ exists st',
       pingAndStore setBool Earlier.doPing Gateway lost_script (Earlier.setup 100)
       = Ok st'
       /\ pings SecondAddr st' = pings SecondAddr (Earlier.setup 100)
       /\ loss SecondAddr st' = loss SecondAddr (Earlier.setup 100).
Proof.
  assert (Gateway <> SecondAddr) as Hne by discriminate.
  split; [exact Hne|].
  destruct (record_touches_one_target (H:=EchoPing) 100 setBool getAvgBool
              Earlier.doPing Gateway SecondAddr Hne) as (Hstore & _ & _).
  eexists. split; [reflexivity|].
  apply (Hstore lost_script (Earlier.setup 100)). reflexivity.
Defined.

(** * Further properties of the sketch *)

(** ** The keypad *)

(** X1. A reading within 64 of the value that the sketch documents for a
    button is decoded as that button. *)
Theorem getLcdButton_tolerates_drift button buttonValue :
  BUTTON_NONE <= button <= BUTTON_RIGHT ->
  Z.abs (buttonValue - nominal_reading button) <= 64 ->
  getLcdButton buttonValue = button.
Proof.
  unfold BUTTON_NONE, BUTTON_RIGHT. intros Hb Hnear.
  assert (button = 0 \/ button = 1 \/ button = 2 \/ button = 3 \/ button = 4
          \/ button = 5) as Hcases by lia.
  unfold getLcdButton.
  destruct Hcases as [->|[->|[->|[->|[->| ->]]]]];
    match type of Hnear with
    | context [nominal_reading ?b] =>
        let n := eval vm_compute in (nominal_reading b) in
        change (nominal_reading b) with n in Hnear
    end;
    unfold BUTTON_NONE, BUTTON_SELECT, BUTTON_LEFT, BUTTON_DOWN, BUTTON_UP,
      BUTTON_RIGHT;
    repeat case_bool_decide; lia.
Qed.

Lemma getLcdButton_tolerates_drift_witness :
  Z.abs (67 - nominal_reading BUTTON_UP) <= 64 /\ getLcdButton 67 = BUTTON_UP.
Proof.
  split; [vm_compute; discriminate|].
  apply getLcdButton_tolerates_drift; vm_compute; [split|]; discriminate.
Defined.

(** X2. The decoding is monotone: the result is one of the six button
    codes, and a higher reading never yields a higher code. *)
Theorem getLcdButton_antitone low high :
  low <= high ->
  BUTTON_NONE <= getLcdButton high <= getLcdButton low
  /\ getLcdButton low <= BUTTON_RIGHT.
Proof.
  intros Hle. unfold getLcdButton, BUTTON_NONE, BUTTON_SELECT, BUTTON_LEFT,
    BUTTON_DOWN, BUTTON_UP, BUTTON_RIGHT.
  repeat case_bool_decide; lia.
Qed.

Lemma getLcdButton_antitone_witness :
  300 <= 500
  /\ BUTTON_NONE <= getLcdButton 500 <= getLcdButton 300
  /\ getLcdButton 300 <= BUTTON_RIGHT.
Proof.
  assert (300 <= 500) as Hle by lia.
  split; [exact Hle|]. exact (getLcdButton_antitone 300 500 Hle).
Defined.

(** ** The bit store *)

Lemma byte_bits_ext x y :
  0 <= x < 256 -> 0 <= y < 256 ->
  (forall j, 0 <= j < 8 -> Z.testbit x j = Z.testbit y j) -> x = y.
Proof.
  intros Hx Hy Hbits.
  rewrite <- (Z.mod_small x 256), <- (Z.mod_small y 256) by lia.
  change 256 with (2 ^ 8). apply Z.bits_inj'. intros j Hj.
  destruct (decide (j < 8)).
  - rewrite !Z.mod_pow2_bits_low by lia. apply Hbits. lia.
  - rewrite !Z.mod_pow2_bits_high by lia. done.
Qed.

(** Two byte arrays of the same length that agree on every bit are equal. *)
Lemma bytes_ext data data' :
  length data = length data' -> is_bytes data -> is_bytes data' ->
  (forall q, 0 <= q -> bit_at data q = bit_at data' q) ->
  data = data'.
Proof.
  intros Hlen Hbytes Hbytes' Hbits. apply list_eq. intros i.
  destruct (data !! i) as [b|] eqn:Hb.
  - destruct (lookup_lt_is_Some_2 data' i) as [b' Hb'].
    { rewrite <- Hlen. by eapply lookup_lt_Some. }
    rewrite Hb'. f_equal.
    apply byte_bits_ext.
    + by apply (Forall_lookup_1 _ _ _ _ Hbytes Hb).
    + by apply (Forall_lookup_1 _ _ _ _ Hbytes' Hb').
    + intros j Hj. specialize (Hbits (8 * Z.of_nat i + j) ltac:(lia)).
      unfold bit_at in Hbits.
      replace ((8 * Z.of_nat i + j) / 8) with (Z.of_nat i) in Hbits
        by (apply (Z.div_unique _ _ _ j); lia).
      replace ((8 * Z.of_nat i + j) mod 8) with j in Hbits
        by (apply (Z.mod_unique _ _ (Z.of_nat i)); lia).
      by rewrite Nat2Z.id, Hb, Hb' in Hbits.
  - symmetry. apply lookup_ge_None. rewrite <- Hlen. by apply lookup_ge_None.
Qed.

Lemma setBool_Ok_insert data pos v data' :
  setBool data pos v = Ok data' ->
  exists b, 0 <= b < 256 /\ data' = <[Z.to_nat (to_int (Z.quot pos 8)) := b]> data.
Proof.
  unfold setBool, arr_set.
  destruct v;
    (destruct (arr_get data _) as [b|]; simpl; [|done];
     destruct (arr_get BIT_MASK _) as [m|]; simpl; [|done];
     case_bool_decide; [|done]; intros [= <-]; eexists; split; [|done];
     unfold to_byte; apply Z.mod_pos_bound; lia).
Qed.

(** X3. [setBool] keeps the array a byte array of the same size: whenever
    it returns, every element is still in 0..255 and the length is
    unchanged. *)
Theorem setBool_keeps_byte_array data pos v data' :
  is_bytes data -> setBool data pos v = Ok data' ->
  is_bytes data' /\ length data' = length data.
Proof.
  intros Hbytes (b & Hb & ->)%setBool_Ok_insert. split.
  - unfold is_bytes. apply Forall_insert; done.
  - apply length_insert.
Qed.

Lemma setBool_keeps_byte_array_witness :
  is_bytes [255; 7]
  /\ setBool [255; 7] 3 false = Ok [247; 7]
  /\ is_bytes [247; 7] /\ length [247; 7] = length [255; 7].
Proof.
  assert (is_bytes [255; 7]) as Hbytes by (repeat constructor; lia).
  split; [exact Hbytes|]. split; [reflexivity|].
  exact (setBool_keeps_byte_array [255; 7] 3 false [247; 7] Hbytes eq_refl).
Defined.

(** X4. The last write wins, and a write of the value that is already
    stored changes nothing: on a byte array and at an in-bounds position,
    [setBool] with [v] followed by [setBool] with [w] at the same position
    gives the same array as [setBool] with [w] alone, and [setBool] with
    the bit read by [getBool] gives the array back. *)
Theorem setBool_last_write_wins data pos v w :
  is_bytes data -> 0 <= pos < 8 * Z.of_nat (length data) -> pos <= INT_MAX ->
  (data' ← setBool data pos v; setBool data' pos w) = setBool data pos w
  /\ (b ← getBool data pos; setBool data pos b) = Ok data.
Proof.
  intros Hbytes Hpos Hint.
  destruct (setBool_bit_at data pos v Hpos Hint) as (d1 & Hd1 & Hlen1 & Hbits1).
  destruct (setBool_bit_at data pos w Hpos Hint) as (d2 & Hd2 & Hlen2 & Hbits2).
  destruct (setBool_bit_at d1 pos w) as (d3 & Hd3 & Hlen3 & Hbits3);
    [rewrite Hlen1; lia | done |].
  destruct (setBool_bit_at data pos (bit_at data pos) Hpos Hint)
    as (d4 & Hd4 & Hlen4 & Hbits4).
  destruct (setBool_keeps_byte_array _ _ _ _ Hbytes Hd1) as [Hb1 _].
  destruct (setBool_keeps_byte_array _ _ _ _ Hbytes Hd2) as [Hb2 _].
  destruct (setBool_keeps_byte_array _ _ _ _ Hb1 Hd3) as [Hb3 _].
  destruct (setBool_keeps_byte_array _ _ _ _ Hbytes Hd4) as [Hb4 _].
  split.
  - rewrite Hd1. simpl. rewrite Hd3, Hd2. f_equal.
    apply bytes_ext; [congruence | done | done |].
    intros q Hq. rewrite Hbits3, Hbits2, Hbits1 by done.
    by case_bool_decide.
  - rewrite getBool_bit_at by done. simpl. rewrite Hd4. f_equal.
    apply bytes_ext; [done..|].
    intros q Hq. rewrite Hbits4 by done. case_bool_decide; by subst.
Qed.

Lemma setBool_last_write_wins_witness :
  is_bytes [5; 0]
  /\ (data' ← setBool [5; 0] 9 true; setBool data' 9 false) = setBool [5; 0] 9 false
  /\ (b ← getBool [5; 0] 9; setBool [5; 0] 9 b) = Ok [5; 0].
Proof.
  assert (is_bytes [5; 0]) as Hbytes by (repeat constructor; lia).
  split; [exact Hbytes|].
  apply (setBool_last_write_wins [5; 0] 9 true false Hbytes);
    [simpl; lia | unfold INT_MAX; lia].
Defined.

(** X5. Writes at distinct positions commute: on a byte array, storing at
    two different in-bounds positions gives the same array in either
    order, also when both positions lie in the same byte. *)
Theorem setBool_commutes data p v q w :
  is_bytes data ->
  0 <= p < 8 * Z.of_nat (length data) -> p <= INT_MAX ->
  0 <= q < 8 * Z.of_nat (length data) -> q <= INT_MAX ->
  p <> q ->
  exists data',
    (d ← setBool data p v; setBool d q w) = Ok data'
    /\ (d ← setBool data q w; setBool d p v) = Ok data'.
Proof.
  intros Hbytes Hp Hpint Hq Hqint Hne.
  destruct (setBool_bit_at data p v Hp Hpint) as (dp & Hdp & Hlenp & Hbitsp).
  destruct (setBool_bit_at data q w Hq Hqint) as (dq & Hdq & Hlenq & Hbitsq).
  destruct (setBool_bit_at dp q w) as (dpq & Hdpq & Hlenpq & Hbitspq);
    [rewrite Hlenp; lia | done |].
  destruct (setBool_bit_at dq p v) as (dqp & Hdqp & Hlenqp & Hbitsqp);
    [rewrite Hlenq; lia | done |].
  destruct (setBool_keeps_byte_array _ _ _ _ Hbytes Hdp) as [Hbp _].
  destruct (setBool_keeps_byte_array _ _ _ _ Hbytes Hdq) as [Hbq _].
  destruct (setBool_keeps_byte_array _ _ _ _ Hbp Hdpq) as [Hbpq _].
  destruct (setBool_keeps_byte_array _ _ _ _ Hbq Hdqp) as [Hbqp _].
  exists dpq. rewrite Hdp, Hdq. simpl. rewrite Hdpq, Hdqp.
  split; [done|]. f_equal.
  apply bytes_ext; [congruence | done | done |].
  intros r Hr. rewrite Hbitsqp, Hbitspq, Hbitsq, Hbitsp by done.
  repeat case_bool_decide; try done; lia.
Qed.

Lemma setBool_commutes_witness :
  exists data',
    (d ← setBool [0; 0] 1 true; setBool d 6 true) = Ok data'
    /\ (d ← setBool [0; 0] 6 true; setBool d 1 true) = Ok data'.
Proof.
  apply (setBool_commutes [0; 0] 1 true 6 true);
    [repeat constructor; lia | simpl; lia | unfold INT_MAX; lia | simpl; lia
    | unfold INT_MAX; lia | lia].
Defined.

(** ** The range average *)

Lemma count_true_all samples :
  count_true samples = Z.of_nat (length samples) <-> Forall (fun b => b = true) samples.
Proof.
  induction samples as [|b rest IH]; simpl.
  - split; [constructor|done].
  - pose proof (count_true_bounds rest). destruct b; split.
    + intros Hc. constructor; [done|]. apply IH. lia.
    + intros Hall. apply Forall_cons in Hall as [_ Hall]. apply IH in Hall. lia.
    + lia.
    + intros Hall. by apply Forall_cons in Hall as [? _].
Qed.

Lemma count_true_none samples :
  count_true samples = 0 <-> Forall (fun b => b = false) samples.
Proof.
  induction samples as [|b rest IH]; simpl.
  - split; [constructor|done].
  - pose proof (count_true_bounds rest). destruct b; split.
    + lia.
    + intros Hall. by apply Forall_cons in Hall as [? _].
    + intros Hc. constructor; [done|]. apply IH. lia.
    + intros Hall. apply Forall_cons in Hall as [_ Hall]. apply IH in Hall. lia.
Qed.

(** X6. On a nonempty range of at most 327 positions inside the array,
    [getAvgBool] returns a percentage between 0 and 100; it is 100 exactly
    when every bit of the range is set; over at most 100 positions it is 0
    exactly when no bit is set, while over more than 100 positions a
    single set bit still averages to 0. *)
Theorem getAvgBool_between_0_and_100 data startPos endPos :
  0 <= startPos < endPos -> endPos <= 8 * Z.of_nat (length data) ->
  endPos <= INT_MAX -> (endPos - startPos) * 100 <= INT_MAX ->
  exists r,
    getAvgBool data startPos endPos = Ok r
    /\ 0 <= r <= 100
    /\ (r = 100 <->
        Forall (fun b => b = true) (stored data startPos (endPos - startPos)))
    /\ (endPos - startPos <= 100 ->
        (r = 0 <->
         Forall (fun b => b = false) (stored data startPos (endPos - startPos))))
    /\ (100 < endPos - startPos ->
        count_true (stored data startPos (endPos - startPos)) = 1 -> r = 0).
Proof.
  intros Hrange Hfit Hint Hpercent.
  rewrite getAvgBool_percent by done.
  pose proof (count_true_bounds (stored data startPos (endPos - startPos))) as Hc.
  pose proof (stored_length data startPos (endPos - startPos) ltac:(lia)) as Hlen.
  rewrite Hlen in Hc.
  remember (stored data startPos (endPos - startPos)) as samples eqn:Hsamples.
  remember (endPos - startPos) as n eqn:Hwidth.
  assert (0 < n) as Hn by lia.
  eexists. split; [done|].
  pose proof (Z.div_mod (count_true samples * 100) n ltac:(lia)) as Hdm.
  pose proof (Z.mod_pos_bound (count_true samples * 100) n Hn) as Hm.
  assert (0 <= count_true samples * 100 / n <= 100) as Hr.
  { split; [apply Z.div_pos; lia|]. apply Z.div_le_upper_bound; lia. }
  split; [exact Hr|]. split; [|split].
  - rewrite <- count_true_all, Hlen. split.
    + intros Hfull. nia.
    + intros Hfull. rewrite Hfull, Z.mul_comm. apply Z.div_mul. lia.
  - intros Hsmall. rewrite <- count_true_none. split.
    + intros Hzero. nia.
    + intros Hnone. by rewrite Hnone.
  - intros Hlarge Hone. rewrite Hone. apply Z.div_small. lia.
Qed.

Lemma getAvgBool_between_0_and_100_witness :
  exists r,
    getAvgBool [255; 1] 2 9 = Ok r /\ 0 <= r <= 100
    /\ (r = 100 <-> Forall (fun b => b = true) (stored [255; 1] 2 (9 - 2))).
Proof.
  destruct (getAvgBool_between_0_and_100 [255; 1] 2 9)
    as (r & Havg & Hr & Hall & _);
    [lia | simpl; lia | unfold INT_MAX; lia | unfold INT_MAX; lia |].
  exists r. split; [exact Havg|]. split; [exact Hr | exact Hall].
Defined.

(** ** The size of the arrays *)

Lemma setBool_outside data pos v :
  0 <= pos <= INT_MAX -> 8 * Z.of_nat (length data) <= pos ->
  setBool data pos v = Fault OutOfBounds.
Proof.
  intros Hpos Hout. unfold setBool, arr_get.
  destruct (int_pos_split pos Hpos) as [-> ->].
  pose proof (Z.div_mod pos 8). pose proof (Z.mod_pos_bound pos 8).
  rewrite (bool_decide_eq_true_2 (0 <= pos / 8)) by lia.
  rewrite (proj2 (lookup_ge_None data (Z.to_nat (pos / 8)))) by lia.
  by destruct v.
Qed.

(** X7. [PING_BYTE_MAX] is large enough for a capacity exactly when the
    capacity is a multiple of 8 or leaves a remainder of at least 4.  For
    such a capacity [setBool] succeeds at every position below it on the
    arrays that [setup] leaves; for any other capacity [setBool] at the
    last position is outside the array. *)
Theorem PING_BYTE_MAX_adequate capacity :
  0 < capacity <= INT_MAX ->
  (capacity <= 8 * PING_BYTE_MAX capacity <->
   capacity mod 8 = 0 \/ 4 <= capacity mod 8)
  /\ (capacity <= 8 * PING_BYTE_MAX capacity ->
      forall pos v, 0 <= pos < capacity ->
        exists data',
          setBool (gatewayPings (Earlier.setup capacity)) pos v = Ok data')
  /\ (~ capacity <= 8 * PING_BYTE_MAX capacity ->
      forall v,
        setBool (gatewayPings (Earlier.setup capacity)) (capacity - 1) v
        = Fault OutOfBounds).
Proof.
  intros Hcap. rewrite PING_BYTE_MAX_eq by lia.
  pose proof (Z.div_mod capacity 8 ltac:(lia)) as Hd.
  pose proof (Z.mod_pos_bound capacity 8 ltac:(lia)) as Hm.
  pose proof (Z.div_mod (capacity + 4) 8 ltac:(lia)) as Hd4.
  pose proof (Z.mod_pos_bound (capacity + 4) 8 ltac:(lia)) as Hm4.
  assert (0 <= (capacity + 4) / 8) as Hnonneg by (apply Z.div_pos; lia).
  assert (length (gatewayPings (Earlier.setup capacity))
          = Z.to_nat ((capacity + 4) / 8)) as Hlen.
  { simpl. by rewrite length_replicate, PING_BYTE_MAX_eq by lia. }
  split; [|split].
  - split.
    + intros Hfit. lia.
    + intros [Hzero|Hhigh]; lia.
  - intros Hfit pos v Hpos.
    destruct (setBool_bit_at (gatewayPings (Earlier.setup capacity)) pos v)
      as (data' & Hset & _); [rewrite Hlen; lia | lia | eauto].
  - intros Hsmall v. apply setBool_outside; [lia | rewrite Hlen; lia].
Qed.

Lemma PING_BYTE_MAX_adequate_witness :
  0 < 300 <= INT_MAX
  /\ (300 <= 8 * PING_BYTE_MAX 300 <-> 300 mod 8 = 0 \/ 4 <= 300 mod 8).
Proof.
  assert (0 < 300 <= INT_MAX) as Hcap by (unfold INT_MAX; lia).
  split; [exact Hcap|]. exact (proj1 (PING_BYTE_MAX_adequate 300 Hcap)).
Defined.

(** ** The two versions of [doPing] *)

(** X8. The two revisions of [doPing] give the same result for every probe
    whose request was sent.  They differ when [asyncStart] fails: the later
    revision returns false at once, the earlier one still waits for
    [asyncComplete], reports the probe as reached if that call leaves
    [SUCCESS], and never returns if no call answers. *)
Theorem doPing_revisions_agree_when_sent `{ICMPPing} :
  (forall script, ~ send_failed script ->
      Earlier.doPing script = Evolved.doPing script)
  /\ (forall status0 polls,
        Evolved.doPing (Asynchronous false status0 polls) = Ok false
        /\ (first_done polls SUCCESS ->
            Earlier.doPing (Asynchronous false status0 polls) = Ok true)
        /\ (existsb fst polls = false ->
            Earlier.doPing (Asynchronous false status0 polls) = Fault Diverges)).
Proof.
  split.
  - intros [[] status0 polls|status] Hsent; simpl; [done| |done].
    by destruct Hsent.
  - intros status0 polls. split; [done|]. split.
    + intros Hdone%asyncWait_first_done. simpl. rewrite Hdone. simpl.
      f_equal. by apply replyIsSuccess_true.
    + intros Hnone. simpl.
      assert (asyncWait polls = Fault Diverges) as ->; [|done].
      induction polls as [|[[] status] rest IH]; simpl in *; [done|done|by apply IH].
Qed.

Lemma doPing_revisions_agree_when_sent_witness :
  ~ send_failed lost_script
  /\ Earlier.doPing lost_script = Evolved.doPing lost_script.
Proof.
  assert (~ send_failed lost_script) as Hsent by (simpl; discriminate).
  split; [exact Hsent|].
  exact (proj1 (doPing_revisions_agree_when_sent (H:=EchoPing)) lost_script Hsent).
Defined.

(** ** Pacing, for any configuration *)

Section PacingAnyConfiguration.
Variables ICMP_PING_TIMEOUT NUMBER_OF_IPS PROCESSING_LOOP_TIME : Z.

Local Abbreviation cfg_interval :=
  (PROCESSING_LOOP_INTERVAL ICMP_PING_TIMEOUT NUMBER_OF_IPS PROCESSING_LOOP_TIME).

Lemma idleWait_first_late clock : forall start finish rest,
  idleWait ICMP_PING_TIMEOUT NUMBER_OF_IPS PROCESSING_LOOP_TIME
    (to_long (millis start)) clock = Ok (finish, rest) ->
  exists waited,
    clock = waited ++ finish :: rest
    /\ to_ulong cfg_interval <= (finish - start) mod 2 ^ 32
    /\ forall t, t ∈ waited -> (t - start) mod 2 ^ 32 < to_ulong cfg_interval.
Proof.
  induction clock as [|now later IH]; intros start finish rest Hwait;
    simpl in Hwait; [done|].
  unfold stillWaiting in Hwait. rewrite elapsed_mod in Hwait.
  case_bool_decide as Hguard.
  - destruct (IH start finish rest Hwait) as (waited & -> & Hlate & Hearly).
    exists (now :: waited). split; [done|]. split; [done|].
    intros t [->|Ht]%elem_of_cons; [done|by apply Hearly].
  - injection Hwait as <- <-. exists []. split; [done|]. split; [lia|].
    intros t Ht. by apply elem_of_nil in Ht.
Qed.
End PacingAnyConfiguration.

(** X9. For every configuration whose interval
    [ICMP_PING_TIMEOUT * NUMBER_OF_IPS + PROCESSING_LOOP_TIME] is
    computed without leaving the [int] range and is not negative, and
    with a clock that never runs backwards, successive cycles start at
    least that interval apart.  The earlier revision, configured with
    800, 3 and 600, has the cycle of 3000 ms as well. *)
Theorem cycles_keep_configured_interval
    (ICMP_PING_TIMEOUT NUMBER_OF_IPS PROCESSING_LOOP_TIME : Z) :
  INT_MIN <= ICMP_PING_TIMEOUT * NUMBER_OF_IPS <= INT_MAX ->
  0 <= ICMP_PING_TIMEOUT * NUMBER_OF_IPS + PROCESSING_LOOP_TIME <= INT_MAX ->
  forall n clock starts,
    nondecreasing clock = true ->
    cycle_starts ICMP_PING_TIMEOUT NUMBER_OF_IPS PROCESSING_LOOP_TIME n clock
    = Ok starts ->
    forall (i : nat) a b,
      starts !! i = Some a -> starts !! S i = Some b ->
      ICMP_PING_TIMEOUT * NUMBER_OF_IPS + PROCESSING_LOOP_TIME <= b - a.
Proof.
  intros Hproduct Hsum n clock starts Hnd Hstarts i a b Ha Hb.
  assert (to_ulong (PROCESSING_LOOP_INTERVAL ICMP_PING_TIMEOUT NUMBER_OF_IPS
                      PROCESSING_LOOP_TIME)
          = ICMP_PING_TIMEOUT * NUMBER_OF_IPS + PROCESSING_LOOP_TIME) as <-.
  { unfold PROCESSING_LOOP_INTERVAL.
    rewrite (to_int_id (_ * _)) by done.
    rewrite to_int_id by (unfold INT_MIN; lia).
    unfold to_ulong. apply Z.mod_small. unfold INT_MAX in *. lia. }
  by eapply cycle_starts_apart.
Qed.

Lemma cycles_keep_configured_interval_witness :
  Earlier.cycle_starts 2 [7; 8; 3006; 3007; 3100; 6100; 6200] = Ok [7; 3100]
  /\ Earlier.ICMP_PING_TIMEOUT * Earlier.NUMBER_OF_IPS + Earlier.PROCESSING_LOOP_TIME
     = 3000
  /\ 3000 <= 3100 - 7.
Proof.
  split; [reflexivity|]. split; [reflexivity|].
  apply (cycles_keep_configured_interval Earlier.ICMP_PING_TIMEOUT
           Earlier.NUMBER_OF_IPS Earlier.PROCESSING_LOOP_TIME
           ltac:(vm_compute; split; discriminate)
           ltac:(vm_compute; split; discriminate)
           2%nat [7; 8; 3006; 3007; 3100; 6100; 6200] [7; 3100]
           eq_refl eq_refl 0%nat 7 3100); reflexivity.
Defined.

(** X10. The wait does not overshoot: it ends at the first reading of the
    clock that is at least the interval after the start.  Every reading
    polled before the one that ends the wait is, modulo the 2^32 wrap of
    the counter, less than the interval after the start. *)
Theorem wait_ends_at_first_late_reading
    (ICMP_PING_TIMEOUT NUMBER_OF_IPS PROCESSING_LOOP_TIME : Z)
    clock start finish rest :
  loop_pacing ICMP_PING_TIMEOUT NUMBER_OF_IPS PROCESSING_LOOP_TIME clock
  = Ok (start, finish, rest) ->
  exists waited,
    clock = start :: waited ++ finish :: rest
    /\ to_ulong (PROCESSING_LOOP_INTERVAL ICMP_PING_TIMEOUT NUMBER_OF_IPS
                   PROCESSING_LOOP_TIME)
       <= (finish - start) mod 2 ^ 32
    /\ forall t, t ∈ waited ->
         (t - start) mod 2 ^ 32
         < to_ulong (PROCESSING_LOOP_INTERVAL ICMP_PING_TIMEOUT NUMBER_OF_IPS
                       PROCESSING_LOOP_TIME).
Proof.
  destruct clock as [|first later]; simpl; [done|].
  destruct (idleWait _ _ _ _ later) as [[finish' rest']|] eqn:Hwait; simpl; [|done].
  intros [= -> -> ->].
  apply idleWait_first_late in Hwait as (waited & -> & Hlate & Hearly).
  by exists waited.
Qed.

Lemma wait_ends_at_first_late_reading_witness :
  Evolved.loop_pacing [40; 41; 900; 3039; 3040; 3041] = Ok (40, 3040, [3041])
  /\ exists waited,
       [40; 41; 900; 3039; 3040; 3041] = 40 :: waited ++ 3040 :: [3041]
       /\ forall t, t ∈ waited -> (t - 40) mod 2 ^ 32 < 3000.
Proof.
  split; [reflexivity|].
  destruct (wait_ends_at_first_late_reading Evolved.ICMP_PING_TIMEOUT
              Evolved.NUMBER_OF_IPS Evolved.PROCESSING_LOOP_TIME
              [40; 41; 900; 3039; 3040; 3041] 40 3040 [3041] eq_refl)
    as (waited & Hclock & _ & Hearly).
  exists waited. split; [exact Hclock | exact Hearly].
Defined.

(** ** The rolling window of the earlier revision *)

Lemma ring_of_length capacity samples : length (ring_of capacity samples) = capacity.
Proof. unfold ring_of. by rewrite ring_fill_length, length_replicate. Qed.

(** Slot [m mod capacity] of the ring holds sample number [m], as long as
    fewer than [capacity] samples came after it. *)
Lemma ring_of_lookup capacity samples : forall m : nat,
  (0 < capacity)%nat -> (m < length samples)%nat ->
  (length samples <= m + capacity)%nat ->
  ring_of capacity samples !! (m mod capacity)%nat = samples !! m.
Proof.
  induction samples as [|v rest IH] using rev_ind; intros m Hcap Hm Hrecent.
  - simpl in Hm. lia.
  - rewrite length_app in Hm, Hrecent. simpl in Hm, Hrecent.
    rewrite ring_of_snoc.
    destruct (decide (m = length rest)) as [->|Hne].
    + rewrite list_lookup_insert_eq
        by (rewrite ring_of_length; apply Nat.mod_upper_bound; lia).
      by rewrite list_lookup_middle.
    + rewrite list_lookup_insert_ne.
      * rewrite IH by lia. by rewrite lookup_app_l by lia.
      * intros Heq.
        pose proof (Nat.Div0.div_mod m capacity) as H1.
        pose proof (Nat.Div0.div_mod (length rest) capacity) as H2.
        rewrite Heq in H2.
        assert (m / capacity < length rest / capacity)%nat by nia.
        nia.
Qed.

Lemma count_true_app xs ys : count_true (xs ++ ys) = count_true xs + count_true ys.
Proof. induction xs as [|[] rest IH]; simpl; lia. Qed.

Lemma count_true_replicate_false n : count_true (replicate n false) = 0.
Proof. induction n as [|n IH]; simpl; lia. Qed.

Lemma count_true_insert samples : forall (i : nat) old v,
  samples !! i = Some old ->
  count_true (<[i := v]> samples)
  = count_true samples - (if old : bool then 1 else 0) + (if v : bool then 1 else 0).
Proof.
  induction samples as [|b rest IH]; intros i old v Hold; [done|].
  destruct i as [|i]; simpl in *.
  - injection Hold as ->. lia.
  - rewrite (IH i old v Hold). lia.
Qed.

(** The ring holds as many true samples as the last [capacity] samples
    recorded (all of them while fewer were recorded). *)
Lemma ring_of_count capacity samples :
  (0 < capacity)%nat ->
  count_true (ring_of capacity samples)
  = count_true (drop (length samples - capacity) samples).
Proof.
  intros Hcap.
  induction samples as [|v rest IH] using rev_ind.
  - simpl. unfold ring_of. simpl. apply count_true_replicate_false.
  - destruct (decide (length (rest ++ [v]) <= capacity)%nat) as [Hsmall|Hlarge].
    + rewrite ring_of_prefix by done.
      replace (length (rest ++ [v]) - capacity)%nat with 0%nat by lia.
      by rewrite drop_0, count_true_app, count_true_replicate_false, Z.add_0_r.
    + rewrite length_app in Hlarge |- *. simpl in Hlarge |- *.
      assert (ring_of capacity rest !! (length rest mod capacity)%nat
              = rest !! (length rest - capacity)%nat) as Hold.
      { rewrite <- (ring_of_lookup capacity rest (length rest - capacity)) by lia.
        f_equal.
        replace (length rest) with ((length rest - capacity) + 1 * capacity)%nat
          at 1 by lia.
        by rewrite Nat.Div0.mod_add. }
      destruct (lookup_lt_is_Some_2 rest (length rest - capacity)) as [old Hx];
        [lia|].
      rewrite Hx in Hold.
      rewrite ring_of_snoc, (count_true_insert _ _ old v Hold), IH.
      rewrite (drop_S _ _ _ Hx). simpl.
      rewrite drop_app_le by lia. rewrite count_true_app. simpl.
      replace (S (length rest - capacity)) with (length rest + 1 - capacity)%nat
        by lia.
      lia.
Qed.

(** X11. The buffers of the earlier revision hold the most recent
    samples: after any sequence of answered cycles from [setup], [getBool]
    at position [m mod capacity] returns the sample of cycle number [m]
    for each of the last [capacity] cycles, and every position that no
    cycle has reached yet reads false. *)
Theorem buffer_holds_latest_samples `{ICMPPing} (capacity : Z)
    (cycles : list (Target -> PingScript)) :
  0 < capacity <= INT_MAX -> capacity <= 8 * PING_BYTE_MAX capacity ->
  forallb cycle_answers cycles = true ->
  exists st,
    Earlier.run capacity cycles (Earlier.setup capacity) = Ok st
    /\ (forall t (m : nat) v,
          samples_of Earlier.doPing cycles t !! m = Some v ->
          Z.of_nat (length cycles) <= Z.of_nat m + capacity ->
          getBool (pings t st) (Z.of_nat m mod capacity) = Ok v)
    /\ (forall t p,
          Z.of_nat (length cycles) <= p < capacity ->
          getBool (pings t st) p = Ok false).
Proof.
  intros [Hpos Hint] Hfit Hans.
  destruct (run_setup_tracks capacity Hpos Hint Hfit cycles Hans) as (st & Hrun & Htr).
  exists st. split; [exact Hrun|].
  destruct Htr as (_ & _ & Hall).
  assert (forall t p, 0 <= p < capacity ->
            getBool (pings t st) p
            = Ok (default false
                    (ring_of (Z.to_nat capacity) (samples_of Earlier.doPing cycles t)
                     !! Z.to_nat p))) as Hread.
  { intros t p Hp. destruct (Hall t) as (_ & Hbytes & Hring).
    rewrite getBool_bit_at by lia. rewrite <- Hring.
    rewrite stored_lookup by lia. simpl. do 2 f_equal. lia. }
  split.
  - intros t m v Hm Hrecent.
    assert (length (samples_of Earlier.doPing cycles t) = length cycles) as Hlen
      by (unfold samples_of; apply length_fmap).
    pose proof (lookup_lt_Some _ _ _ Hm) as Hlt.
    pose proof (Z.mod_pos_bound (Z.of_nat m) capacity Hpos) as Hmod.
    rewrite Hread by done.
    replace (Z.to_nat (Z.of_nat m mod capacity)) with (m mod Z.to_nat capacity)%nat.
    + rewrite ring_of_lookup by lia. by rewrite Hm.
    + rewrite <- (Z2Nat.id capacity) at 2 by lia.
      by rewrite <- Nat2Z.inj_mod, Nat2Z.id.
  - intros t p Hp. rewrite Hread by lia.
    rewrite ring_of_prefix
      by (unfold samples_of; rewrite length_fmap; lia).
    rewrite lookup_app_r by (unfold samples_of; rewrite length_fmap; lia).
    destruct (replicate _ false !! _) as [b|] eqn:Hb; [|done].
    by apply lookup_replicate in Hb as [-> _].
Qed.

Lemma buffer_holds_latest_samples_witness :
  exists st,
    Earlier.run 4 [cycle_of true false false; cycle_of false true false;
                   cycle_of false false false; cycle_of false false false;
                   cycle_of false false true]
      (Earlier.setup 4) = Ok st
    /\ getBool (pings SecondAddr st) (Z.of_nat 4 mod 4) = Ok true
    /\ getBool (pings FirstAddr st) (Z.of_nat 1 mod 4) = Ok true.
Proof.
  destruct (buffer_holds_latest_samples (H:=EchoPing) 4
              [cycle_of true false false; cycle_of false true false;
               cycle_of false false false; cycle_of false false false;
               cycle_of false false true])
    as (st & Hrun & Hlatest & _);
    [unfold INT_MAX; lia | vm_compute; discriminate | reflexivity |].
  exists st. split; [exact Hrun|]. split.
  - apply (Hlatest SecondAddr 4%nat true); [reflexivity | simpl; lia].
  - apply (Hlatest FirstAddr 1%nat true); [reflexivity | simpl; lia].
Defined.

(** X12. The loss that the earlier revision reports is the integer
    percentage of lost pings among the most recent samples: after any
    nonempty sequence of [k] answered cycles, with [w] the smaller of [k]
    and the capacity, each loss is [count * 100 / w] for the count of true
    samples among the last [w] cycles, and it lies between 0 and 100.
    Once a window of 100 is full, as in the configured sketch, the loss is
    exactly the number of lost pings among the last 100. *)
Theorem loss_is_percentage_of_recent_samples `{ICMPPing} (capacity : Z)
    (cycles : list (Target -> PingScript)) :
  0 < capacity -> capacity * 100 <= INT_MAX ->
  capacity <= 8 * PING_BYTE_MAX capacity ->
  cycles <> [] -> forallb cycle_answers cycles = true ->
  exists st,
    Earlier.run capacity cycles (Earlier.setup capacity) = Ok st
    /\ forall t,
         let w := Z.min (Z.of_nat (length cycles)) capacity in
         let recent :=
           drop (length cycles - Z.to_nat w) (samples_of Earlier.doPing cycles t) in
         Z.of_nat (length recent) = w
         /\ loss t st = count_true recent * 100 / w
         /\ 0 <= loss t st <= 100
         /\ (w = 100 -> loss t st = count_true recent).
Proof.
  intros Hpos Hpercent Hfit Hne Hans.
  assert (capacity <= INT_MAX) as Hint by (unfold INT_MAX in *; lia).
  destruct (run_setup_tracks capacity Hpos Hint Hfit cycles Hans) as (st & Hrun & Htr).
  exists st. split; [exact Hrun|].
  pose proof (run_last_average _ _ _ _ _ _ _ Hne Hrun) as Havg.
  pose proof (tracks_window capacity _ _ _ Htr) as Hwin.
  destruct Htr as (_ & _ & Hall).
  intros t w recent. destruct (Hall t) as (Hlen & Hbytes & Hring).
  assert (0 < Z.of_nat (length cycles)) as Hk by (destruct cycles; [done|simpl; lia]).
  assert (window capacity st = w) as Hw
    by (rewrite Hwin; subst w; case_bool_decide; lia).
  assert (0 < w <= capacity) as Hwpos by (subst w; lia).
  assert (count_true (stored (pings t st) 0 w) = count_true recent) as Hcount.
  { rewrite (stored_take _ capacity) by lia. rewrite Hring. subst recent.
    destruct (decide (Z.of_nat (length cycles) <= capacity)) as [Hwarm|Hfull].
    - replace w with (Z.of_nat (length cycles)) by lia.
      rewrite Nat2Z.id, Nat.sub_diag, drop_0.
      rewrite ring_of_prefix by lia.
      by rewrite take_app_length' by done.
    - replace w with capacity by lia.
      rewrite <- (ring_of_length (Z.to_nat capacity)
                    (samples_of Earlier.doPing cycles t)) at 1.
      rewrite take_ge by done.
      rewrite ring_of_count by lia. by rewrite Hlen. }
  assert (Z.of_nat (length recent) = w) as Hrecent.
  { subst recent. rewrite length_drop, Hlen. lia. }
  assert (loss t st = count_true recent * 100 / w) as Hloss.
  { specialize (Havg t). rewrite Hw in Havg.
    rewrite getAvgBool_percent in Havg by (unfold INT_MAX in *; lia).
    rewrite Z.sub_0_r, Hcount in Havg. by injection Havg as <-. }
  pose proof (count_true_bounds recent) as Hc. rewrite Hrecent in Hc.
  split; [exact Hrecent|]. split; [exact Hloss|]. rewrite Hloss. split.
  - split; [apply Z.div_pos; lia|]. apply Z.div_le_upper_bound; lia.
  - intros ->. apply Z.div_mul. lia.
Qed.

Lemma loss_is_percentage_of_recent_samples_witness :
  exists st,
    Earlier.run 4 [cycle_of true false false; cycle_of true true false;
                   cycle_of false false false; cycle_of false false false;
                   cycle_of false false true]
      (Earlier.setup 4) = Ok st
    /\ loss Gateway st = 25 /\ loss FirstAddr st = 25 /\ loss SecondAddr st = 25.
Proof.
  destruct (loss_is_percentage_of_recent_samples (H:=EchoPing) 4
              [cycle_of true false false; cycle_of true true false;
               cycle_of false false false; cycle_of false false false;
               cycle_of false false true])
    as (st & Hrun & Hloss);
    [lia | unfold INT_MAX; lia | vm_compute; discriminate | discriminate
    | reflexivity |].
  exists st. split; [exact Hrun|].
  destruct (Hloss Gateway) as (_ & Hg & _).
  destruct (Hloss FirstAddr) as (_ & Hf & _).
  destruct (Hloss SecondAddr) as (_ & Hs & _).
  rewrite Hg, Hf, Hs. repeat split; reflexivity.
Defined.

(** ** The backlight alarm *)

Lemma nondecreasing_app_later waited finish later :
  nondecreasing (waited ++ finish :: later) = true ->
  forall t, t ∈ later -> finish <= t.
Proof.
  induction waited as [|w waited IH]; intros Hnd.
  - by apply nondecreasing_cons in Hnd as [_ Hge].
  - apply IH. by apply (nondecreasing_cons w).
Qed.

Lemma alarm_loop_blinks timeMs start (n : nat) : forall clock outs later,
  (length clock <= n)%nat ->
  alarm_loop timeMs (to_long (millis start)) clock = Ok (outs, later) ->
  Forall (fun o => o = Backlight 0 \/ o = Backlight 255) outs
  /\ exists polled finish,
       clock = polled ++ finish :: later
       /\ to_ulong timeMs <= (finish - start) mod 2 ^ 32.
Proof.
  induction n as [|n IH]; intros clock outs later Hlen Hloop.
  - destruct clock; [done|simpl in Hlen; lia].
  - destruct clock as [|now rest]; [done|]. simpl in Hloop, Hlen.
    rewrite elapsed_mod in Hloop.
    case_bool_decide as Hguard.
    + destruct rest as [|t1 rest1]; [done|]. simpl in Hlen.
      case_bool_decide as Htick.
      * destruct rest1 as [|t2 rest2]; [done|]. simpl in Hlen.
        destruct (alarm_loop _ _ rest2) as [[outs' later']|] eqn:Hrec;
          simpl in Hloop; [|done].
        injection Hloop as <- <-.
        destruct (IH rest2 outs' later' ltac:(lia) Hrec)
          as (Hblink & polled & finish & -> & Hlate).
        split.
        -- constructor; [|done]. case_bool_decide; auto.
        -- exists (now :: t1 :: t2 :: polled), finish. done.
      * destruct (IH rest1 outs later ltac:(lia) Hloop)
          as (Hblink & polled & finish & -> & Hlate).
        split; [done|]. exists (now :: t1 :: polled), finish. done.
    + injection Hloop as <- <-. split; [constructor|].
      exists [], now. split; [done|lia].
Qed.

Lemma backlight_levels_app outs1 outs2 :
  backlight_levels (outs1 ++ outs2) = backlight_levels outs1 ++ backlight_levels outs2.
Proof. unfold backlight_levels. apply bind_app. Qed.

Lemma backlight_levels_blinks outs :
  Forall (fun o => o = Backlight 0 \/ o = Backlight 255) outs ->
  Forall (fun level => level = 0 \/ level = 255) (backlight_levels outs).
Proof.
  induction 1 as [|o outs [-> | ->] _ IH]; [constructor|..];
    (change (backlight_levels (Backlight ?l :: outs))
       with (l :: backlight_levels outs); constructor; auto).
Qed.

(** What [alarm] does to the backlight and how long it blocks. *)
Lemma alarm_blinks_and_blocks timeMs clock outs later :
  alarm timeMs clock = Ok (outs, later) ->
  (exists blink,
      backlight_levels outs = 0 :: 255 :: blink ++ [LCD_BACKLIGHT_BRIGHTNESS]
      /\ Forall (fun level => level = 0 \/ level = 255) blink)
  /\ (nondecreasing clock = true ->
      forall start, head clock = Some start ->
      forall t, t ∈ later -> to_ulong timeMs <= t - start).
Proof.
  destruct clock as [|first rest]; [done|]. simpl.
  destruct (alarm_loop _ _ rest) as [[outs' later']|] eqn:Hloop; simpl; [|done].
  intros [= <- <-].
  destruct (alarm_loop_blinks timeMs first (length rest) rest outs' later'
              ltac:(lia) Hloop) as (Hblink & polled & finish & -> & Hlate).
  split.
  - exists (backlight_levels outs'). split; [|by apply backlight_levels_blinks].
    change (backlight_levels (Backlight 0 :: Delay 50 :: Backlight 255 :: Delay 50
                              :: outs' ++ [Backlight LCD_BACKLIGHT_BRIGHTNESS]))
      with (0 :: 255 :: backlight_levels (outs' ++ [Backlight LCD_BACKLIGHT_BRIGHTNESS])).
    by rewrite backlight_levels_app.
  - intros Hnd start [= <-] t Ht.
    apply nondecreasing_cons in Hnd as [Hnd Hafter].
    assert (first <= finish) as Hle.
    { apply Hafter. apply elem_of_app. right. left. }
    pose proof (nondecreasing_app_later _ _ _ Hnd t Ht) as Hge.
    pose proof (Z.mod_le (finish - first) (2 ^ 32)). lia.
Qed.

(** X13. [alarm] always hands the backlight back: whenever it returns, it
    has switched the backlight off, then fully on, then only between off
    and fully on, and its last write restores [LCD_BACKLIGHT_BRIGHTNESS].
    With a clock that never runs backwards it blocks for at least
    [timeMs] milliseconds; a negative [timeMs] is compared as an
    [unsigned long] and blocks for at least 2^32 + [timeMs]. *)
Theorem alarm_restores_backlight timeMs clock outs later :
  INT_MIN <= timeMs <= INT_MAX ->
  alarm timeMs clock = Ok (outs, later) ->
  (exists blink,
      backlight_levels outs = 0 :: 255 :: blink ++ [LCD_BACKLIGHT_BRIGHTNESS]
      /\ Forall (fun level => level = 0 \/ level = 255) blink)
  /\ (nondecreasing clock = true ->
      forall start, head clock = Some start ->
      forall t, t ∈ later ->
        (0 <= timeMs -> timeMs <= t - start)
        /\ (timeMs < 0 -> 2 ^ 32 + timeMs <= t - start)).
Proof.
  intros Hint Halarm.
  destruct (alarm_blinks_and_blocks _ _ _ _ Halarm) as [Hblink Hblock].
  split; [exact Hblink|].
  intros Hnd start Hstart t Ht. specialize (Hblock Hnd start Hstart t Ht).
  unfold to_ulong, INT_MIN, INT_MAX in *. split; intros Hsign.
  - rewrite Z.mod_small in Hblock; lia.
  - rewrite <- (Z_mod_plus_full timeMs 1 (2 ^ 32)) in Hblock.
    rewrite Z.mod_small in Hblock; lia.
Qed.

Lemma alarm_restores_backlight_witness :
  alarm 100 [5; 60; 100; 100; 104; 105; 200; 300] = Ok
    ([Backlight 0; Delay 50; Backlight 255; Delay 50; Backlight 0; Backlight 64],
     [300])
  /\ exists blink,
       backlight_levels
         [Backlight 0; Delay 50; Backlight 255; Delay 50; Backlight 0; Backlight 64]
       = 0 :: 255 :: blink ++ [LCD_BACKLIGHT_BRIGHTNESS].
Proof.
  assert (alarm 100 [5; 60; 100; 100; 104; 105; 200; 300] = Ok
            ([Backlight 0; Delay 50; Backlight 255; Delay 50; Backlight 0;
              Backlight 64], [300])) as Halarm by reflexivity.
  split; [exact Halarm|].
  destruct (alarm_restores_backlight 100 _ _ _
              ltac:(vm_compute; split; discriminate) Halarm) as [(blink & Hlevels & _) _].
  exists blink. exact Hlevels.
Defined.

(** ** What [doPing] draws *)

Lemma draws_app x y glyphs1 glyphs2 :
  draws x y (glyphs1 ++ glyphs2) = draws x y glyphs1 ++ draws x y glyphs2.
Proof. unfold draws. apply bind_app. Qed.

(** [lcdClockSpin] draws nothing, or one of the three clock glyphs in its
    cell; it never moves the cursor without drawing. *)
Lemma lcdClockSpin_draws x y clock outs later :
  lcdClockSpin x y clock = Ok (outs, later) ->
  exists frames, outs = draws x y frames /\ Forall clock_glyph frames.
Proof.
  unfold lcdClockSpin. destruct clock as [|t1 rest1]; [done|].
  case_bool_decide as Htick.
  - destruct rest1 as [|t2 rest2]; [done|]. intros [= <- <-].
    pose proof (Z.mod_pos_bound (millis t2 / SPIN_RATE) 3 ltac:(lia)) as Hframe.
    repeat case_bool_decide; try lia.
    + exists [LCD_CHAR_CLOCK1]. split; [done|].
      constructor; [unfold clock_glyph; auto | constructor].
    + exists [LCD_CHAR_CLOCK2]. split; [done|].
      constructor; [unfold clock_glyph; auto | constructor].
    + exists [LCD_CHAR_CLOCK3]. split; [done|].
      constructor; [unfold clock_glyph; auto | constructor].
  - intros [= <- <-]. exists []. split; [done|constructor].
Qed.

Lemma asyncWait_display_draws `{ICMPPing} x y polls : forall clock status outs later,
  asyncWait_display x y polls clock = Ok (status, outs, later) ->
  asyncWait polls = Ok status
  /\ exists frames, outs = draws x y frames /\ Forall clock_glyph frames.
Proof.
  induction polls as [|[[] status'] rest IH]; intros clock status outs later;
    simpl; [done|..].
  - intros [= <- <- <-]. split; [done|]. exists []. split; [done|constructor].
  - destruct (lcdClockSpin x y clock) as [[spin clock1]|] eqn:Hspin; simpl; [|done].
    destruct (asyncWait_display x y rest clock1) as [[[final spins] clock2]|] eqn:Hrest;
      simpl; [|done].
    intros [= <- <- <-].
    destruct (IH _ _ _ _ Hrest) as (Hwait & frames & -> & Hframes).
    destruct (lcdClockSpin_draws _ _ _ _ _ Hspin) as (frames0 & -> & Hframes0).
    split; [done|]. exists (frames0 ++ frames).
    split; [by rewrite draws_app | by apply Forall_app].
Qed.

(** X14. [doPing] of [DhcpPingMonitor.ino] draws only in the cell it is
    given and leaves the verdict there: whenever it returns, its result is
    the one of [doPing] without the display, and all it has sent to the
    display is a sequence of single glyphs, each written right after the
    cursor was set to column [x] of row [y]: first the hourglass, then
    clock glyphs only, and last the check mark if the probe was reached
    and the cross if it was not. *)
Theorem doPing_draws_in_its_cell `{ICMPPing} x y script clock reached outs later :
  doPing_display x y script clock = Ok (reached, outs, later) ->
  Evolved.doPing script = Ok reached
  /\ exists frames,
       outs = draws x y
                (LCD_CHAR_HOURGLASS :: frames
                 ++ [if reached then LCD_CHAR_SMALL_CHECK else LCD_CHAR_SMALL_X])
       /\ Forall clock_glyph frames.
Proof.
  unfold doPing_display.
  destruct script as [[] status0 polls|status]; simpl.
  - destruct (asyncWait_display x y polls clock) as [[[final spins] clock']|] eqn:Hwait;
      simpl; [|done].
    intros [= <- <- <-].
    destruct (asyncWait_display_draws _ _ _ _ _ _ _ Hwait)
      as (-> & frames & -> & Hframes).
    simpl. split; [by destruct (replyIsSuccess final)|].
    exists frames. split; [|done].
    change (draws x y (LCD_CHAR_HOURGLASS :: ?l))
      with ([LcdSetCursor x y; LcdWrite LCD_CHAR_HOURGLASS] ++ draws x y l).
    rewrite draws_app. by destruct (replyIsSuccess final).
  - intros [= <- <- <-]. split; [done|]. exists []. split; [done|constructor].
  - intros [= <- <- <-]. split; [by destruct (replyIsSuccess status)|].
    exists []. split; [|constructor]. by destruct (replyIsSuccess status).
Qed.

Lemma doPing_draws_in_its_cell_witness :
  doPing_display 7 1 lost_script [500; 500; 600] = Ok
    (false,
     [LcdSetCursor 7 1; LcdWrite 2; LcdSetCursor 7 1; LcdWrite 5;
      LcdSetCursor 7 1; LcdWrite 1],
     [600])
  /\ Evolved.doPing lost_script = Ok false.
Proof.
  assert (doPing_display 7 1 lost_script [500; 500; 600] = Ok
            (false,
             [LcdSetCursor 7 1; LcdWrite 2; LcdSetCursor 7 1; LcdWrite 5;
              LcdSetCursor 7 1; LcdWrite 1],
             [600])) as Hdraw by reflexivity.
  split; [exact Hdraw|].
  exact (proj1 (doPing_draws_in_its_cell (H:=EchoPing) _ _ _ _ _ _ _ Hdraw)).
Defined.

(** ** Lease maintenance *)

Lemma cursor_positions_app outs1 outs2 :
  cursor_positions (outs1 ++ outs2) = cursor_positions outs1 ++ cursor_positions outs2.
Proof. unfold cursor_positions. apply bind_app. Qed.

Lemma alarm_outputs timeMs clock outs later :
  alarm timeMs clock = Ok (outs, later) ->
  cursor_positions outs = []
  /\ (forall text, LcdPrint text ∉ outs)
  /\ last (backlight_levels outs) = Some LCD_BACKLIGHT_BRIGHTNESS.
Proof.
  intros Halarm.
  destruct (alarm_blinks_and_blocks _ _ _ _ Halarm) as [(blink & Hlevels & _) _].
  split; [|split].
  - destruct clock as [|first rest]; [done|]. simpl in Halarm.
    destruct (alarm_loop _ _ rest) as [[outs' later']|] eqn:Hloop;
      simpl in Halarm; [|done].
    injection Halarm as <- <-.
    destruct (alarm_loop_blinks _ _ _ _ _ _ (Nat.le_refl _) Hloop) as [Hblink _].
    change (cursor_positions (outs' ++ [Backlight LCD_BACKLIGHT_BRIGHTNESS]) = []).
    rewrite cursor_positions_app, app_nil_r.
    clear -Hblink. induction Hblink as [|o outs [-> | ->] _ IH]; done.
  - destruct clock as [|first rest]; [done|]. simpl in Halarm.
    destruct (alarm_loop _ _ rest) as [[outs' later']|] eqn:Hloop;
      simpl in Halarm; [|done].
    injection Halarm as <- <-.
    destruct (alarm_loop_blinks _ _ _ _ _ _ (Nat.le_refl _) Hloop) as [Hblink _].
    intros text Hin.
    repeat (apply elem_of_cons in Hin as [Hin|Hin]; [done|]).
    apply elem_of_app in Hin as [Hin|Hin].
    + rewrite Forall_forall in Hblink. by destruct (Hblink _ Hin).
    + apply list_elem_of_singleton in Hin. done.
  - rewrite Hlevels.
    change (0 :: 255 :: blink ++ [LCD_BACKLIGHT_BRIGHTNESS])
      with ((0 :: 255 :: blink) ++ [LCD_BACKLIGHT_BRIGHTNESS]).
    apply last_snoc.
Qed.

Lemma in_three (o a b c : output) :
  o ∈ [a; b; c] -> o = a \/ o = b \/ o = c.
Proof.
  intros Hin. repeat (apply elem_of_cons in Hin as [Hin|Hin]; [auto|]).
  by apply elem_of_nil in Hin.
Qed.

(** The shape of what [ethernetRenewMaintenance] sends for a status other
    than 0: the title, the message, the alarm and the serial report. *)
Lemma maintenance_shape timeMs clock blink later message report :
  alarm timeMs clock = Ok (blink, later) ->
  (forall text, LcdPrint text ∈ message -> String.length text = 16%nat) ->
  (forall text, LcdPrint text ∉ report) ->
  backlight_levels message = [] -> backlight_levels report = [] ->
  cursor_positions report = [] ->
  let outs := [LcdSetCursor 0 0; LcdPrint "Ethernet Maint: "; LcdSetCursor 0 1]
              ++ message ++ blink ++ report in
  last (backlight_levels outs) = Some LCD_BACKLIGHT_BRIGHTNESS
  /\ (forall text, LcdPrint text ∈ outs -> String.length text = 16%nat)
  /\ cursor_positions outs = (0, 0) :: (0, 1) :: cursor_positions message.
Proof.
  intros Halarm Hwide Hreport Hm Hr Hc outs.
  destruct (alarm_outputs _ _ _ _ Halarm) as (Hcur & Hnoprint & Hlast).
  subst outs. split; [|split].
  - change (backlight_levels (?a :: ?b :: ?c :: ?l)) with (backlight_levels l).
    by rewrite !backlight_levels_app, Hm, Hr, app_nil_r.
  - intros text Hin.
    apply elem_of_app in Hin as [Hin|Hin].
    { apply in_three in Hin as [Hin|[Hin|Hin]]; by simplify_eq. }
    apply elem_of_app in Hin as [Hin|Hin]; [by apply Hwide|].
    apply elem_of_app in Hin as [Hin|Hin]; [by apply Hnoprint in Hin|].
    by apply Hreport in Hin.
  - change (cursor_positions (?a :: ?b :: ?c :: ?l))
      with ((0, 0) :: (0, 1) :: cursor_positions l).
    by rewrite !cursor_positions_app, Hcur, Hc, app_nil_r.
Qed.

Lemma alarm_blocks timeMs clock blink later :
  alarm timeMs clock = Ok (blink, later) ->
  0 <= timeMs < 2 ^ 32 -> nondecreasing clock = true ->
  forall start, head clock = Some start ->
  forall t, t ∈ later -> timeMs <= t - start.
Proof.
  intros Halarm Hrange Hnd start Hstart t Ht.
  destruct (alarm_blinks_and_blocks _ _ _ _ Halarm) as [_ Hblock].
  specialize (Hblock Hnd start Hstart t Ht).
  unfold to_ulong in Hblock. rewrite Z.mod_small in Hblock; lia.
Qed.

Lemma known_message_report (status : Z) (message report : string) clock timeMs
    outs later :
  0 < status <= 4 ->
  ('(blink, later') ← alarm timeMs clock;
   Ok ([LcdSetCursor 0 0; LcdPrint "Ethernet Maint: "; LcdSetCursor 0 1]
       ++ [LcdPrint message] ++ blink ++ [SerialPrintln report], later'))
  = Ok (outs, later) ->
  String.length message = 16%nat -> 0 <= timeMs < 2 ^ 32 ->
  last (backlight_levels outs) = Some LCD_BACKLIGHT_BRIGHTNESS
  /\ (forall text, LcdPrint text ∈ outs -> String.length text = 16%nat)
  /\ ((forall col row, (col, row) ∈ cursor_positions outs ->
          0 <= col < 16 /\ 0 <= row < 2) <-> status <= 4)
  /\ (4 < status -> (1, 14) ∈ cursor_positions outs)
  /\ (nondecreasing clock = true ->
      forall start, head clock = Some start ->
      forall t, t ∈ later -> timeMs <= t - start).
Proof.
  intros Hstatus Hrun Hmessage Hrange.
  destruct (alarm timeMs clock) as [[blink later']|] eqn:Halarm; simpl in Hrun; [|done].
  injection Hrun as <- <-.
  destruct (maintenance_shape timeMs clock blink later' [LcdPrint message]
              [SerialPrintln report] Halarm) as (Hlast & Hwide & Hcursor).
  { intros text Hin. apply list_elem_of_singleton in Hin. by simplify_eq. }
  { intros text Hin. by apply list_elem_of_singleton in Hin. }
  { done. }
  { done. }
  { done. }
  cbn [app] in Hlast, Hwide, Hcursor.
  split; [exact Hlast|]. split; [exact Hwide|]. rewrite Hcursor.
  split; [|split; [lia|by apply (alarm_blocks timeMs clock blink)]].
  split; [lia|]. intros _ col row Hin.
  repeat (apply elem_of_cons in Hin as [Hin|Hin]; [simplify_eq; lia|]).
  by apply elem_of_nil in Hin.
Qed.

(** X15. [ethernetRenewMaintenance] does nothing when [Ethernet.maintain()]
    reports 0.  For any other status every line it prints on the display
    is 16 characters wide and the backlight is left at
    [LCD_BACKLIGHT_BRIGHTNESS]; it blocks in [alarm] for at least 1000 ms
    on the two success codes and at least 10000 ms on every other code.
    All cursor positions it sets are inside the 16 x 2 display exactly for
    the statuses 0 to 4: for an unknown code it sets the cursor to column
    1 of row 14. *)
Theorem ethernetRenewMaintenance_report maintained clock outs later :
  ethernetRenewMaintenance maintained clock = Ok (outs, later) ->
  (to_byte maintained = 0 -> outs = [] /\ later = clock)
  /\ (to_byte maintained <> 0 ->
      last (backlight_levels outs) = Some LCD_BACKLIGHT_BRIGHTNESS)
  /\ (forall text, LcdPrint text ∈ outs -> String.length text = 16%nat)
  /\ ((forall col row, (col, row) ∈ cursor_positions outs ->
         0 <= col < 16 /\ 0 <= row < 2) <-> to_byte maintained <= 4)
  /\ (4 < to_byte maintained -> (1, 14) ∈ cursor_positions outs)
  /\ (to_byte maintained <> 0 -> nondecreasing clock = true ->
      forall start, head clock = Some start ->
      forall t, t ∈ later ->
        (if bool_decide (to_byte maintained = 2 \/ to_byte maintained = 4)
         then 1000 else 10000)
        <= t - start).
Proof.
  unfold ethernetRenewMaintenance.
  assert (0 <= to_byte maintained < 256) as Hbyte
    by (unfold to_byte; apply Z.mod_pos_bound; lia).
  generalize dependent (to_byte maintained). intros status Hbyte Hrun.
  destruct (decide (status > 0)) as [Hpos|Hzero].
  2: { rewrite bool_decide_eq_false_2 in Hrun by done. injection Hrun as <- <-.
       split; [done|]. split; [lia|].
       split; [intros text Hin; by apply elem_of_nil in Hin|].
       split; [split; [lia|intros _ col row Hin; by apply elem_of_nil in Hin]|].
       split; lia. }
  rewrite (bool_decide_eq_true_2 _ Hpos) in Hrun.
  split; [lia|].
  destruct (decide (status = 1)) as [H1|H1].
  { rewrite (bool_decide_eq_true_2 _ H1) in Hrun.
    apply (known_message_report status) in Hrun
      as (Hlast & Hwide & Hcursor & Hrow & Hblock);
      [|lia|reflexivity|lia].
    rewrite bool_decide_eq_false_2 by lia. auto 10. }
  rewrite (bool_decide_eq_false_2 _ H1) in Hrun.
  destruct (decide (status = 2)) as [H2|H2].
  { rewrite (bool_decide_eq_true_2 _ H2) in Hrun.
    apply (known_message_report status) in Hrun
      as (Hlast & Hwide & Hcursor & Hrow & Hblock);
      [|lia|reflexivity|lia].
    rewrite bool_decide_eq_true_2 by lia. auto 10. }
  rewrite (bool_decide_eq_false_2 _ H2) in Hrun.
  destruct (decide (status = 3)) as [H3|H3].
  { rewrite (bool_decide_eq_true_2 _ H3) in Hrun.
    apply (known_message_report status) in Hrun
      as (Hlast & Hwide & Hcursor & Hrow & Hblock);
      [|lia|reflexivity|lia].
    rewrite bool_decide_eq_false_2 by lia. auto 10. }
  rewrite (bool_decide_eq_false_2 _ H3) in Hrun.
  destruct (decide (status = 4)) as [H4|H4].
  { rewrite (bool_decide_eq_true_2 _ H4) in Hrun.
    apply (known_message_report status) in Hrun
      as (Hlast & Hwide & Hcursor & Hrow & Hblock);
      [|lia|reflexivity|lia].
    rewrite bool_decide_eq_true_2 by lia. auto 10. }
  rewrite (bool_decide_eq_false_2 _ H4) in Hrun.
  destruct (alarm 10000 clock) as [[blink later']|] eqn:Halarm; simpl in Hrun; [|done].
  injection Hrun as <- <-.
  destruct (maintenance_shape 10000 clock blink later'
              [LcdPrint "Unknown Code    "; LcdSetCursor 1 14; LcdPrintNumber status]
              [SerialPrint "Ethernet Maintenance: Unknown code ";
               SerialPrintlnNumber status] Halarm)
    as (Hlast & Hwide & Hcursor).
  { intros text Hin. apply in_three in Hin as [Hin|[Hin|Hin]]; by simplify_eq. }
  { intros text Hin.
    repeat (apply elem_of_cons in Hin as [Hin|Hin]; [done|]).
    by apply elem_of_nil in Hin. }
  { done. }
  { done. }
  { done. }
  cbn [app] in Hlast, Hwide, Hcursor.
  split; [intros _; exact Hlast|]. split; [exact Hwide|]. rewrite Hcursor.
  change (cursor_positions _) with [(1, 14)].
  split; [|split].
  - split; [|lia]. intros Hinside.
    destruct (Hinside 1 14) as [_ Hrow]; [rewrite !elem_of_cons; auto|lia].
  - intros _. rewrite !elem_of_cons. auto.
  - intros _ Hnd start Hstart t Ht. rewrite bool_decide_eq_false_2 by lia.
    by apply (alarm_blocks 10000 clock blink later').
Qed.

Lemma ethernetRenewMaintenance_report_witness :
  ethernetRenewMaintenance 2 [0; 100; 101; 1000; 1100] = Ok
    ([LcdSetCursor 0 0; LcdPrint "Ethernet Maint: "; LcdSetCursor 0 1;
      LcdPrint "    Renew OK    ";
      Backlight 0; Delay 50; Backlight 255; Delay 50; Backlight 64;
      SerialPrintln "Ethernet Renew Success"], [1100])
  /\ forall t, t ∈ [1100] -> 1000 <= t - 0.
Proof.
  assert (ethernetRenewMaintenance 2 [0; 100; 101; 1000; 1100] = Ok
    ([LcdSetCursor 0 0; LcdPrint "Ethernet Maint: "; LcdSetCursor 0 1;
      LcdPrint "    Renew OK    ";
      Backlight 0; Delay 50; Backlight 255; Delay 50; Backlight 64;
      SerialPrintln "Ethernet Renew Success"], [1100])) as Hrun by reflexivity.
  split; [exact Hrun|].
  destruct (ethernetRenewMaintenance_report _ _ _ _ Hrun) as (_ & _ & _ & _ & _ & Hblock).
  apply (Hblock ltac:(vm_compute; discriminate) eq_refl 0 eq_refl).
Defined.

(** ** Addresses and losses on the display *)

Lemma decimal_width_byte n : 0 <= n <= 255 -> 1 <= decimal_width n <= 3.
Proof.
  intros Hn. unfold decimal_width, decimal_digits. repeat case_bool_decide; lia.
Qed.

(** X16. A printed address fits a display line: for every address whose
    octets are bytes, [lcdPrintIpAddr] prints the four octets in order with
    a dot after each of the first three, and fills between 7 and 15 of the
    16 cells of the line. *)
Theorem lcdPrintIpAddr_fits_line (ipAddr : IPAddress) :
  0 <= octet0 ipAddr <= 255 -> 0 <= octet1 ipAddr <= 255 ->
  0 <= octet2 ipAddr <= 255 -> 0 <= octet3 ipAddr <= 255 ->
  lcdPrintIpAddr ipAddr
  = [LcdPrintNumber (octet0 ipAddr); LcdPrint ".";
     LcdPrintNumber (octet1 ipAddr); LcdPrint ".";
     LcdPrintNumber (octet2 ipAddr); LcdPrint ".";
     LcdPrintNumber (octet3 ipAddr)]
  /\ 7 <= foldr Z.add 0 (cells <$> lcdPrintIpAddr ipAddr) <= 15.
Proof.
  intros H0 H1 H2 H3.
  assert (lcdPrintIpAddr ipAddr
          = [LcdPrintNumber (octet0 ipAddr); LcdPrint ".";
             LcdPrintNumber (octet1 ipAddr); LcdPrint ".";
             LcdPrintNumber (octet2 ipAddr); LcdPrint ".";
             LcdPrintNumber (octet3 ipAddr)]) as Hprint by reflexivity.
  split; [exact Hprint|]. rewrite Hprint. simpl.
  pose proof (decimal_width_byte _ H0). pose proof (decimal_width_byte _ H1).
  pose proof (decimal_width_byte _ H2). pose proof (decimal_width_byte _ H3).
  lia.
Qed.

Lemma lcdPrintIpAddr_fits_line_witness :
  lcdPrintIpAddr (IP 192 168 100 254)
  = [LcdPrintNumber 192; LcdPrint "."; LcdPrintNumber 168; LcdPrint ".";
     LcdPrintNumber 100; LcdPrint "."; LcdPrintNumber 254]
  /\ 7 <= foldr Z.add 0 (cells <$> lcdPrintIpAddr (IP 192 168 100 254)) <= 15.
Proof.
  apply (lcdPrintIpAddr_fits_line (IP 192 168 100 254)); simpl; lia.
Defined.

(** X17. The three losses never run into each other on the display of
    the earlier revision: after any nonempty sequence of answered cycles
    each number that [loop] prints is between 0 and 100 and at most three
    characters wide, so the numbers written at columns 0, 4 and 8 stay
    inside their fields and clear of the percent sign at column 12; both
    full lines are 16 characters wide. *)
Theorem losses_fit_their_fields `{ICMPPing} (capacity : Z)
    (cycles : list (Target -> PingScript)) (st : monitor (list Z) Z) :
  0 < capacity -> capacity * 100 <= INT_MAX ->
  capacity <= 8 * PING_BYTE_MAX capacity ->
  cycles <> [] -> forallb cycle_answers cycles = true ->
  Earlier.run capacity cycles (Earlier.setup capacity) = Ok st ->
  (forall n, LcdPrintNumber n ∈ showLosses st ->
     0 <= n <= 100 /\ 1 <= decimal_width n <= 3)
  /\ (forall text, LcdPrint text ∈ showLosses st -> String.length text = 16%nat).
Proof.
  intros Hpos Hpercent Hfit Hne Hans Hrun.
  assert (capacity <= INT_MAX) as Hint by (unfold INT_MAX in *; lia).
  destruct (run_setup_tracks capacity Hpos Hint Hfit cycles Hans) as (st' & Hrun' & Htr).
  assert (st' = st) as -> by congruence.
  pose proof (run_last_average _ _ _ _ _ _ _ Hne Hrun) as Havg.
  pose proof (tracks_window capacity _ _ _ Htr) as Hwin.
  assert (0 < Z.of_nat (length cycles)) as Hk by (destruct cycles; [done|simpl; lia]).
  assert (0 < window capacity st <= capacity) as Hw
    by (rewrite Hwin; case_bool_decide; lia).
  destruct Htr as (_ & _ & Hall).
  assert (forall t, 0 <= loss t st <= 100) as Hloss.
  { intros t. destruct (Hall t) as (_ & Hbytes & _).
    specialize (Havg t).
    rewrite getAvgBool_percent in Havg by (unfold INT_MAX in *; lia).
    injection Havg as <-.
    pose proof (count_true_bounds (stored (pings t st) 0 (window capacity st - 0)))
      as Hc.
    rewrite stored_length in Hc by lia.
    split; [apply Z.div_pos; lia|]. apply Z.div_le_upper_bound; lia. }
  split.
  - intros n Hin.
    assert (n = loss Gateway st \/ n = loss FirstAddr st \/ n = loss SecondAddr st)
      as Hn.
    { unfold showLosses in Hin.
      repeat (apply elem_of_cons in Hin as [Hin|Hin]; [simplify_eq; auto|]).
      by apply elem_of_nil in Hin. }
    assert (0 <= n <= 100) as Hrange by (destruct Hn as [->|[->| ->]]; apply Hloss).
    split; [exact Hrange|].
    unfold decimal_width, decimal_digits. repeat case_bool_decide; lia.
  - intros text Hin. unfold showLosses in Hin.
    repeat (apply elem_of_cons in Hin as [Hin|Hin]; [by simplify_eq|]).
    by apply elem_of_nil in Hin.
Qed.

Lemma losses_fit_their_fields_witness :
  Earlier.run 4 [cycle_of true false true] (Earlier.setup 4)
  = Ok (Monitor [1] [0] [1] 1 true 100 0 100)
  /\ forall n, LcdPrintNumber n ∈ showLosses (Monitor [1] [0] [1] 1 true 100 0 100) ->
       0 <= n <= 100 /\ 1 <= decimal_width n <= 3.
Proof.
  assert (Earlier.run 4 [cycle_of true false true] (Earlier.setup 4)
          = Ok (Monitor [1] [0] [1] 1 true 100 0 100)) as Hrun by reflexivity.
  split; [exact Hrun|].
  apply (losses_fit_their_fields (H:=EchoPing) 4 [cycle_of true false true]);
    [lia | unfold INT_MAX; lia | vm_compute; discriminate | discriminate
    | reflexivity | exact Hrun].
Defined.
